(** * Video notes front end: outline parser, text export, polling and chat

    A shallow embedding of [static/js/notes.js] and [static/js/qna.js].

    - [JS]    : the host-language primitives the scripts call (strings as
                sequences of UTF-16 code units, [trim], [split], [includes],
                and the anchored regular expressions of the parser);
    - [Notes] : the outline tree, [parseStructuredNotes],
                [formatNotesForDownload] and the polling handler
                [handleGenerateNotes];
    - [Qna]   : the chat widget's [sendMessage] round trip.

    A property access on [undefined] raises a [TypeError] in the scripts; the
    embedding returns [None] there and [Some] otherwise. *)

From Stdlib Require Import String Ascii DecimalString.
From Stdlib Require Import List NArith Bool Arith Lia.
Import ListNotations.

(* ------------------------------------------------------------------ *)
(** ** Host primitives *)

Module JS.

(** A string is the sequence of its UTF-16 code units. *)
Definition char := N.
Definition jsstring := list char.

(** A literal of the scripts whose characters are all below U+0100. *)
Definition lit (s : string) : jsstring :=
  map N_of_ascii (list_ascii_of_string s).

Definition LF : char := 10%N.
Definition nl : jsstring := [LF].

Definition char_eqb (a b : char) : bool := N.eqb a b.

Fixpoint str_eqb (a b : jsstring) : bool :=
  match a, b with
  | [], [] => true
  | x :: a', y :: b' => char_eqb x y && str_eqb a' b'
  | _, _ => false
  end.

(** ECMAScript LineTerminator: LF, CR, LS, PS. *)
Definition isLineTerminator (c : char) : bool :=
  (N.eqb c 10 || N.eqb c 13 || N.eqb c 0x2028 || N.eqb c 0x2029)%N.

(** ECMAScript WhiteSpace and LineTerminator: what [\s] matches and what
    [trim] strips. *)
Definition isWhiteSpace (c : char) : bool :=
  (N.eqb c 9 || N.eqb c 11 || N.eqb c 12 || N.eqb c 32 || N.eqb c 160
   || N.eqb c 0x1680 || (N.leb 0x2000 c && N.leb c 0x200A)
   || N.eqb c 0x202F || N.eqb c 0x205F || N.eqb c 0x3000 || N.eqb c 0xFEFF
   || isLineTerminator c)%N.

(** [\d] *)
Definition isDigit (c : char) : bool := (N.leb 48 c && N.leb c 57)%N.

(** [.] without the [s] flag *)
Definition isDot (c : char) : bool := negb (isLineTerminator c).

Definition isChar (a : ascii) (c : char) : bool := N.eqb c (N_of_ascii a).

Fixpoint dropWhile (p : char -> bool) (s : jsstring) : jsstring :=
  match s with
  | [] => []
  | c :: s' => if p c then dropWhile p s' else s
  end.

Definition trimStart (s : jsstring) : jsstring := dropWhile isWhiteSpace s.
Definition trimEnd (s : jsstring) : jsstring :=
  rev (dropWhile isWhiteSpace (rev s)).
Definition trim (s : jsstring) : jsstring := trimEnd (trimStart s).

(** A string is truthy when it is not empty. *)
Definition truthy (s : jsstring) : bool :=
  match s with [] => false | _ :: _ => true end.

(** [s.split('\n')]: never empty, [""] splits to [[""]]. *)
Fixpoint split_nl (s : jsstring) : list jsstring :=
  match s with
  | [] => [[]]
  | c :: s' =>
      if char_eqb c LF then [] :: split_nl s'
      else match split_nl s' with
           | l :: ls => (c :: l) :: ls
           | [] => [[c]]
           end
  end.

Fixpoint startsWith (s p : jsstring) : bool :=
  match p, s with
  | [], _ => true
  | _ :: _, [] => false
  | a :: p', b :: s' => char_eqb a b && startsWith s' p'
  end.

(** [s.includes(sub)] *)
Fixpoint includes (s sub : jsstring) : bool :=
  startsWith s sub
  || match s with [] => false | _ :: s' => includes s' sub end.

(** Decimal digits of a number placed in a template literal. *)
Definition decimal (n : nat) : jsstring :=
  lit (NilEmpty.string_of_uint (Nat.to_uint n)).

(** ["=".repeat(n)] and the like *)
Definition repeatChar (a : ascii) (n : nat) : jsstring :=
  List.repeat (N_of_ascii a) n.

(** *** The anchored regular expressions of the parser

    Every pattern of [parseStructuredNotes] is [^] followed by single
    characters and greedy [+] repetitions of a character class, with no [$].
    [exec] is the backtracking matcher on that fragment: it returns what
    follows the match the engine finds (the greedy one first). *)

Inductive atom : Type :=
| One (cls : char -> bool)
| Plus (cls : char -> bool).

Definition regex := list atom.

Fixpoint exec (re : regex) : jsstring -> option jsstring :=
  match re with
  | [] => fun s => Some s
  | One cls :: re' =>
      fun s =>
        match s with
        | [] => None
        | c :: s' => if cls c then exec re' s' else None
        end
  | Plus cls :: re' =>
      fix many (s : jsstring) : option jsstring :=
        match s with
        | [] => None
        | c :: s' =>
            if cls c then
              match many s' with
              | Some r => Some r
              | None => exec re' s'
              end
            else None
        end
  end.

(** [s.match(re)] used as a condition *)
Definition matches (re : regex) (s : jsstring) : bool :=
  match exec re s with Some _ => true | None => false end.

(** [s.replace(re, '')] for an anchored [re] without the [g] flag *)
Definition strip (re : regex) (s : jsstring) : jsstring :=
  match exec re s with Some r => r | None => s end.

(** [/^#\s+.+/] and [/^#\s+/] *)
Definition re_section : regex := [One (isChar "#"); Plus isWhiteSpace; Plus isDot].
Definition re_section_mark : regex := [One (isChar "#"); Plus isWhiteSpace].
(** [/^##\s+.+/] and [/^##\s+/] *)
Definition re_subsection : regex :=
  [One (isChar "#"); One (isChar "#"); Plus isWhiteSpace; Plus isDot].
Definition re_subsection_mark : regex :=
  [One (isChar "#"); One (isChar "#"); Plus isWhiteSpace].
(** [/^\d+\.\s+.+/] and [/^\d+\.\s+/] *)
Definition re_numbered : regex :=
  [Plus isDigit; One (isChar "."); Plus isWhiteSpace; Plus isDot].
Definition re_numbered_mark : regex :=
  [Plus isDigit; One (isChar "."); Plus isWhiteSpace].
(** [/^-\s+.+/] and [/^-\s+/] *)
Definition re_bullet : regex := [One (isChar "-"); Plus isWhiteSpace; Plus isDot].
Definition re_bullet_mark : regex := [One (isChar "-"); Plus isWhiteSpace].
(** [/^#/] and [/^##/] *)
Definition re_hash : regex := [One (isChar "#")].
Definition re_hash2 : regex := [One (isChar "#"); One (isChar "#")].

(** Lower-casing of the Basic Latin letters, the part of
    [String.prototype.toLowerCase] that does not depend on the engine's
    Unicode tables. *)
Definition lowerBasicLatin (s : jsstring) : jsstring :=
  map (fun c => if (N.leb 65 c && N.leb c 90)%N then (c + 32)%N else c) s.

Definition isBasicLatin (s : jsstring) : bool :=
  forallb (fun c => N.ltb c 128) s.

End JS.

(* ------------------------------------------------------------------ *)
(** ** notes.js *)

Module Notes.
Import JS.

(** The objects of the outline tree. A field the script may leave out of an
    object literal is an [option]. *)
Record Subsection : Type := {
  sub_title : jsstring;
  sub_points : option (list jsstring)
}.

Record Section : Type := {
  title : jsstring;
  content : option (list jsstring);
  points : option (list jsstring);
  subsections : option (list Subsection)
}.

(** The local variables of [parseStructuredNotes]. [currentSubsection] is a
    reference to an object that [currentSection.subsections] holds as well:
    the state keeps the position of that object, and a write through the
    reference updates the array element. *)
Record ParseState : Type := {
  sections : list Section;
  currentSection : option Section;
  currentSubsection : option nat;
  inKeyPoints : bool;
  keyPoints : list jsstring
}.

Definition initial : ParseState :=
  {| sections := []; currentSection := None; currentSubsection := None;
     inKeyPoints := false; keyPoints := [] |}.

Definition bind {A B} (x : option A) (f : A -> option B) : option B :=
  match x with Some a => f a | None => None end.

Notation "x <- e ;; k" := (bind e (fun x => k))
  (at level 61, e at next level, right associativity).

(** [a.forEach(f)] for a callback that threads a state and may throw. *)
Fixpoint forEach {A St} (f : St -> A -> option St) (l : list A) (s : St)
  : option St :=
  match l with
  | [] => Some s
  | x :: l' => s' <- f s x ;; forEach f l' s'
  end.

Fixpoint updateAt {A} (i : nat) (x : A) (l : list A) : list A :=
  match l, i with
  | [], _ => []
  | _ :: l', O => x :: l'
  | y :: l', S j => y :: updateAt j x l'
  end.

(** The elements of an array field, none when the field is missing. *)
Definition orEmpty {A} (o : option (list A)) : list A :=
  match o with Some l => l | None => [] end.

(** [a.findIndex(p)], [None] for -1 *)
Fixpoint findIndex {A} (p : A -> bool) (l : list A) : option nat :=
  match l with
  | [] => None
  | x :: l' => if p x then Some O else option_map S (findIndex p l')
  end.

(** [a.splice(start, 0, x)] *)
Definition splice {A} (start : nat) (x : A) (l : list A) : list A :=
  firstn start l ++ x :: skipn start l.

Definition pushSection (st : ParseState) : list Section :=
  match currentSection st with
  | Some cs => sections st ++ [cs]
  | None => sections st
  end.

Definition withContent (cs : Section) (c : list jsstring) : Section :=
  {| title := title cs; content := Some c; points := points cs;
     subsections := subsections cs |}.

Definition withSubsections (cs : Section) (subs : list Subsection) : Section :=
  {| title := title cs; content := content cs; points := points cs;
     subsections := Some subs |}.

Definition withCurrentSection (st : ParseState) (cs : Section) : ParseState :=
  {| sections := sections st; currentSection := Some cs;
     currentSubsection := currentSubsection st;
     inKeyPoints := inKeyPoints st; keyPoints := keyPoints st |}.

(** [currentSection.content.push(x)] *)
Definition pushContent (st : ParseState) (cs : Section) (x : jsstring)
  : option ParseState :=
  c <- content cs ;;
  Some (withCurrentSection st (withContent cs (c ++ [x]))).

Definition createFallbackStructure (notes : jsstring) : list Section :=
  [ {| title := lit "Content Notes"; content := Some [notes];
       points := None; subsections := Some [] |} ].

(** *** Text export *)

(** [a.forEach((x, index) => ...)] over a state, for a callback that may
    throw and for one that cannot. *)
Fixpoint forEachI {A St} (f : St -> A -> nat -> option St) (l : list A)
  (index : nat) (s : St) : option St :=
  match l with
  | [] => Some s
  | x :: l' => s' <- f s x index ;; forEachI f l' (S index) s'
  end.

Fixpoint foldI {A St} (f : St -> A -> nat -> St) (l : list A)
  (index : nat) (s : St) : St :=
  match l with
  | [] => s
  | x :: l' => foldI f l' (S index) (f s x index)
  end.

(** The marker of a subsection point, as the code units of the template
    literal in the source file. *)
Definition bulletMark : jsstring := [0xE2; 0x20AC; 0xA2]%N.

Definition formatSubsection (out : jsstring) (subsection : Subsection)
  (subIndex : nat) : jsstring :=
  let out := out ++ lit "   " ++ decimal (subIndex + 1) ++ lit ". "
                 ++ sub_title subsection ++ nl in
  let out :=
    match sub_points subsection with
    | Some ps =>
        foldI (fun out point _ =>
                 out ++ lit "      " ++ bulletMark ++ lit " " ++ point ++ nl)
              ps 0 out
    | None => out
    end in
  out ++ nl.

Definition formatSection (out : jsstring) (section : Section) (index : nat)
  : option jsstring :=
  let out := out ++ decimal (index + 1) ++ lit ". " ++ title section ++ nl in
  let out := out ++ repeatChar "=" (length (title section) + 4) ++ nl ++ nl in
  let out :=
    match content section with
    | Some paragraphs =>
        foldI (fun out paragraph _ => out ++ paragraph ++ nl ++ nl)
              paragraphs 0 out
    | None => out
    end in
  let out :=
    match points section with
    | Some ps =>
        let out := out ++ lit "Key Points:" ++ nl in
        let out :=
          foldI (fun out point pointIndex =>
                   out ++ lit "  " ++ decimal (pointIndex + 1) ++ lit ". "
                       ++ point ++ nl)
                ps 0 out in
        out ++ nl
    | None => out
    end in
  subs <- subsections section ;;
  let out := foldI formatSubsection subs 0 out in
  Some (out ++ nl).

Definition formatNotesForDownload (secs : list Section) : option jsstring :=
  forEachI formatSection secs 0 (lit "VIDEO NOTES" ++ nl ++ nl).

(** The layout of the export in the words of its contract: a sequence of
    lines, each closed by a line feed. *)
Definition line (s : jsstring) : jsstring := s ++ nl.
Definition blank : jsstring := nl.

(** The elements of a list with their 1-based positions. *)
Definition numbered {A} (l : list A) : list (nat * A) :=
  combine (seq 1 (length l)) l.

Definition subsectionBlock (entry : nat * Subsection) : jsstring :=
  let (n, sub) := entry in
  line (lit "   " ++ decimal n ++ lit ". " ++ sub_title sub)
  ++ concat (map (fun p => line (lit "      " ++ bulletMark ++ lit " " ++ p))
                 (orEmpty (sub_points sub)))
  ++ blank.

Definition keyPointsBlock (ps : list jsstring) : jsstring :=
  line (lit "Key Points:")
  ++ concat (map (fun e : nat * jsstring =>
                    line (lit "  " ++ decimal (fst e) ++ lit ". " ++ snd e))
                 (numbered ps))
  ++ blank.

Definition sectionBlock (entry : nat * Section) : jsstring :=
  let (n, s) := entry in
  line (decimal n ++ lit ". " ++ title s)
  ++ line (repeatChar "=" (length (title s) + 4))
  ++ blank
  ++ concat (map (fun p => line p ++ blank) (orEmpty (content s)))
  ++ match points s with Some ps => keyPointsBlock ps | None => [] end
  ++ concat (map subsectionBlock (numbered (orEmpty (subsections s))))
  ++ blank.

Definition exportLayout (secs : list Section) : jsstring :=
  line (lit "VIDEO NOTES") ++ blank ++ concat (map sectionBlock (numbered secs)).

(** *** The page state of the polling handler *)

Inductive display : Type := block | none.

(** [style.display] of the four panels. *)
Record Panels : Type := {
  loadingState : display;
  contentPlaceholder : display;
  notesResult : display;
  errorState : display
}.

(** The module-level variables and what the handler does to the outside:
    [requests] counts the [POST /generate_notes] that [handleGenerateNotes]
    has issued, [timers] holds the delays of the pending
    [setTimeout(handleGenerateNotes, ...)]. The progress bar, the toast, the
    rendered markup and the statistics are left out. *)
Record Page : Type := {
  currentNotes : jsstring;
  structuredNotes : list Section;
  retryCount : nat;
  panels : Panels;
  errorMessage : jsstring;
  requests : nat;
  timers : list nat
}.

Definition MAX_RETRIES : nat := 10.
Definition RETRY_DELAY : nat := 3000.

Definition setPanels (p : Page) (ps : Panels) : Page :=
  {| currentNotes := currentNotes p; structuredNotes := structuredNotes p;
     retryCount := retryCount p; panels := ps;
     errorMessage := errorMessage p; requests := requests p;
     timers := timers p |}.

Definition setRetryCount (p : Page) (n : nat) : Page :=
  {| currentNotes := currentNotes p; structuredNotes := structuredNotes p;
     retryCount := n; panels := panels p;
     errorMessage := errorMessage p; requests := requests p;
     timers := timers p |}.

Definition setErrorMessage (p : Page) (m : jsstring) : Page :=
  {| currentNotes := currentNotes p; structuredNotes := structuredNotes p;
     retryCount := retryCount p; panels := panels p;
     errorMessage := m; requests := requests p;
     timers := timers p |}.

Definition setNotes (p : Page) (notes : jsstring) (secs : list Section) : Page :=
  {| currentNotes := notes; structuredNotes := secs;
     retryCount := retryCount p; panels := panels p;
     errorMessage := errorMessage p; requests := requests p;
     timers := timers p |}.

Definition setTimers (p : Page) (ts : list nat) : Page :=
  {| currentNotes := currentNotes p; structuredNotes := structuredNotes p;
     retryCount := retryCount p; panels := panels p;
     errorMessage := errorMessage p; requests := requests p;
     timers := ts |}.

(** [fetch('/generate_notes', ...)] *)
Definition fetchNotes (p : Page) : Page :=
  {| currentNotes := currentNotes p; structuredNotes := structuredNotes p;
     retryCount := retryCount p; panels := panels p;
     errorMessage := errorMessage p; requests := S (requests p);
     timers := timers p |}.

Definition showLoadingState (p : Page) : Page :=
  setPanels p {| loadingState := block; contentPlaceholder := none;
                 notesResult := none; errorState := none |}.

Definition hideLoadingState (p : Page) : Page :=
  setRetryCount
    (setPanels p {| loadingState := none;
                    contentPlaceholder := contentPlaceholder (panels p);
                    notesResult := notesResult (panels p);
                    errorState := errorState (panels p) |})
    0.

Definition showProcessingState (p : Page) : Page :=
  setPanels p {| loadingState := block; contentPlaceholder := none;
                 notesResult := none; errorState := none |}.

Definition showError (p : Page) (message : jsstring) : Page :=
  setRetryCount
    (setPanels (setErrorMessage p message)
       {| loadingState := none; contentPlaceholder := none;
          notesResult := none; errorState := block |})
    0.

(** The JSON body of a reply, and how the awaited request ends: with a body,
    or with an exception whose message is [message]. *)
Record Data : Type := {
  status : option jsstring;
  notes : option jsstring;
  message : option jsstring;
  error : option jsstring
}.

Inductive Outcome : Type :=
| Resolved (data : Data)
| Rejected (message : jsstring).

Definition statusIs (data : Data) (s : string) : bool :=
  match status data with Some t => str_eqb t (lit s) | None => false end.

(** [a || b] on values that are strings or [undefined] *)
Definition orElse (a : option jsstring) (b : option jsstring)
  : option jsstring :=
  match a with
  | Some s => if truthy s then a else b
  | None => b
  end.

Definition truthyField (a : option jsstring) : bool :=
  match a with Some s => truthy s | None => false end.

Definition processingReply : Outcome :=
  Resolved {| status := Some (lit "processing"); notes := None;
              message := None; error := None |}.

Section Parser.

(** [String.prototype.toLowerCase] of the engine that runs the script. *)
Variable toLowerCase : jsstring -> jsstring.

Definition isKeyPointsTitle (t : jsstring) : bool :=
  includes (toLowerCase t) (lit "key points").

Definition isOverview (s : Section) : bool :=
  includes (toLowerCase (title s)) (lit "overview").

(** The body of the [lines.forEach] callback. *)
Definition processLine (st : ParseState) (line0 : jsstring)
  : option ParseState :=
  let line := trim line0 in
  if matches re_section line then
    Some {| sections := pushSection st;
            currentSection :=
              Some {| title := strip re_section_mark line;
                      content := Some []; points := None;
                      subsections := Some [] |};
            currentSubsection := None;
            inKeyPoints := false;
            keyPoints := keyPoints st |}
  else if matches re_subsection line then
    let t := strip re_subsection_mark line in
    let kp := isKeyPointsTitle t in
    let acc := if kp then [] else keyPoints st in
    match currentSection st with
    | Some cs =>
        subs <- subsections cs ;;
        Some {| sections := sections st;
                currentSection :=
                  Some (withSubsections cs
                          (subs ++ [ {| sub_title := t;
                                        sub_points := Some [] |} ]));
                currentSubsection := Some (length subs);
                inKeyPoints := kp;
                keyPoints := acc |}
    | None =>
        Some {| sections := sections st;
                currentSection := None;
                currentSubsection := currentSubsection st;
                inKeyPoints := kp;
                keyPoints := acc |}
    end
  else if matches re_numbered line && inKeyPoints st then
    Some {| sections := sections st;
            currentSection := currentSection st;
            currentSubsection := currentSubsection st;
            inKeyPoints := inKeyPoints st;
            keyPoints := keyPoints st ++ [strip re_numbered_mark line] |}
  else if matches re_bullet line then
    let point := strip re_bullet_mark line in
    match currentSubsection st with
    | Some i =>
        cs <- currentSection st ;;
        subs <- subsections cs ;;
        sub <- nth_error subs i ;;
        let ps := match sub_points sub with Some ps => ps | None => [] end in
        Some (withCurrentSection st
                (withSubsections cs
                   (updateAt i {| sub_title := sub_title sub;
                                  sub_points := Some (ps ++ [point]) |}
                      subs)))
    | None =>
        match currentSection st with
        | Some cs => pushContent st cs point
        | None => Some st
        end
    end
  else if (0 <? length line)
          && negb (matches re_hash line) && negb (matches re_hash2 line) then
    match currentSection st with
    | Some cs => if 5 <? length line then pushContent st cs line else Some st
    | None => Some st
    end
  else Some st.

(** [notes.split('\n').filter(line => line.trim())] *)
Definition linesOf (notes : jsstring) : list jsstring :=
  filter (fun line => truthy (trim line)) (split_nl notes).

Definition keyPointsSection (kps : list jsstring) : Section :=
  {| title := lit "Key Points"; content := None; points := Some kps;
     subsections := Some [] |}.

(** The statements after the loop, up to the [return]. *)
Definition postPass (st : ParseState) : list Section :=
  let secs := pushSection st in
  if (0 <? length (keyPoints st)) && (0 <? length secs) then
    match findIndex isOverview secs with
    | Some overviewIndex =>
        splice (overviewIndex + 1) (keyPointsSection (keyPoints st)) secs
    | None => splice 1 (keyPointsSection (keyPoints st)) secs
    end
  else secs.

Definition parseStructuredNotes (notes : jsstring) : option (list Section) :=
  st <- forEach processLine (linesOf notes) initial ;;
  let secs := postPass st in
  Some (if 0 <? length secs then secs else createFallbackStructure notes).

(** *** [handleGenerateNotes]

    The handler up to its [await], and from the reply to its end. *)
Definition handleGenerateNotes_start (p : Page) : Page :=
  fetchNotes (setRetryCount (showLoadingState p) 0).

Definition processAndDisplayNotes (p : Page) (notes : jsstring)
  : option Page :=
  let p := setPanels p {| loadingState := loadingState (panels p);
                          contentPlaceholder := none;
                          notesResult := block;
                          errorState := errorState (panels p) |} in
  secs <- parseStructuredNotes notes ;;
  Some (setNotes p (currentNotes p) secs).

Definition failed : jsstring := lit "Failed to generate notes: ".

Definition handleGenerateNotes_resume (p : Page) (reply : Outcome) : Page :=
  match reply with
  | Rejected m => showError p (failed ++ m)
  | Resolved data =>
      if statusIs data "success" && truthyField (notes data) then
        let n := orEmpty (notes data) in
        let p := setNotes p n (structuredNotes p) in
        match processAndDisplayNotes p n with
        | Some p' => hideLoadingState p'
        | None => showError p failed
        end
      else if statusIs data "processing" then
        let p := showProcessingState p in
        let p := setRetryCount p (retryCount p + 1) in
        if retryCount p <? MAX_RETRIES then
          setTimers p (timers p ++ [RETRY_DELAY])
        else
          showError p
            (lit "Video processing is taking too long. Please try again later.")
      else
        showError p
          (failed ++
           orEmpty (orElse (orElse (message data) (error data))
                           (Some (lit "Notes generation failed"))))
  end.

(** One run of the handler, from its call to the end of the task that
    handles the reply. *)
Definition handleGenerateNotes (p : Page) (reply : Outcome) : Page :=
  handleGenerateNotes_resume (handleGenerateNotes_start p) reply.

(** The oldest pending timer fires and runs the handler. *)
Definition timerFires (p : Page) (reply : Outcome) : option Page :=
  match timers p with
  | [] => None
  | _ :: ts => Some (handleGenerateNotes (setTimers p ts) reply)
  end.

(** The polls that follow the first run: each reply answers the request of
    one timer firing, and the chain ends when no timer is pending. *)
Fixpoint polls (replies : list Outcome) (p : Page) : Page :=
  match replies with
  | [] => p
  | r :: rest =>
      match timerFires p r with
      | Some p' => polls rest p'
      | None => p
      end
  end.

(** A click on the generate button, its reply, and the replies to the polls
    the handler schedules after it. *)
Definition generate (p : Page) (reply : Outcome) (replies : list Outcome)
  : Page :=
  polls replies (handleGenerateNotes p reply).

(** The page after a click and [n] further polls, every request answered
    with the status "processing". *)
Definition alwaysProcessing (p : Page) (n : nat) : Page :=
  generate p processingReply (repeat processingReply n).

(** *** Icons and statistics *)

Definition sectionIcons : list jsstring :=
  [lit "file-alt"; lit "clipboard-list"; lit "sticky-note"; lit "book";
   lit "graduation-cap"].

Definition subsectionIcons : list jsstring :=
  [lit "list-ul"; lit "tasks"; lit "check-double"; lit "clipboard-list";
   lit "th-list"].

(** [icons[index % icons.length]]; [None] is [undefined]. *)
Definition getSectionIcon (index : nat) (t : jsstring) : option jsstring :=
  let lowerTitle := toLowerCase t in
  if includes lowerTitle (lit "overview") || includes lowerTitle (lit "summary")
  then Some (lit "file-alt")
  else if includes lowerTitle (lit "topic") then Some (lit "tags")
  else if includes lowerTitle (lit "key point") then Some (lit "key")
  else if includes lowerTitle (lit "additional") then Some (lit "info-circle")
  else if includes lowerTitle (lit "takeaway") then Some (lit "lightbulb")
  else if includes lowerTitle (lit "application") then Some (lit "rocket")
  else nth_error sectionIcons (index mod length sectionIcons).

Definition getSubsectionIcon (index : nat) : option jsstring :=
  nth_error subsectionIcons (index mod length subsectionIcons).

(** [updateDetailedStats]: the section count and the point total it writes
    to the page. *)
Definition updateDetailedStats (secs : list Section) : nat * nat :=
  let sectionCount := length secs in
  let totalPoints :=
    fold_left
      (fun totalPoints section =>
         let totalPoints :=
           match points section with
           | Some ps => totalPoints + length ps
           | None => totalPoints
           end in
         match subsections section with
         | Some subs =>
             fold_left
               (fun totalPoints subsection =>
                  match sub_points subsection with
                  | Some ps => totalPoints + length ps
                  | None => totalPoints
                  end)
               subs totalPoints
         | None => totalPoints
         end)
      secs 0 in
  (sectionCount, totalPoints).

(** *** The other handlers of the page *)

Definition showPlaceholderState (p : Page) : Page :=
  setRetryCount
    (setPanels p {| loadingState := none; contentPlaceholder := block;
                    notesResult := none; errorState := none |})
    0.

Definition hideErrorState (p : Page) : Page :=
  setPanels p {| loadingState := loadingState (panels p);
                 contentPlaceholder := contentPlaceholder (panels p);
                 notesResult := notesResult (panels p);
                 errorState := none |}.

Definition clearPreviousNotes (p : Page) : Page :=
  setRetryCount
    (setPanels (setNotes p [] [])
       {| loadingState := loadingState (panels p);
          contentPlaceholder := block;
          notesResult := none;
          errorState := errorState (panels p) |})
    0.

(** [checkForExistingNotes] from the reply to its end, with the delay of the
    timer it sets for itself, if it sets one. *)
Definition checkForExistingNotes_resume (p : Page) (reply : Outcome)
  : Page * option nat :=
  match reply with
  | Rejected _ => (showPlaceholderState p, None)
  | Resolved data =>
      if statusIs data "success" && truthyField (notes data) then
        let n := orEmpty (notes data) in
        let p := setNotes p n (structuredNotes p) in
        match processAndDisplayNotes p n with
        | Some p' => (hideLoadingState p', None)
        | None => (showPlaceholderState p, None)
        end
      else if statusIs data "processing" then
        (showProcessingState p, Some RETRY_DELAY)
      else (showPlaceholderState p, None)
  end.

(** [handleRetry] and [handleRefresh] up to the [await] of the handler they
    call; [confirmed] is the answer to the [confirm] dialog, and the boolean
    of the result tells whether a request was issued. *)
Definition handleRetry (p : Page) : Page :=
  handleGenerateNotes_start (setRetryCount (hideErrorState p) 0).

Definition handleRefresh (p : Page) (confirmed : bool) : Page * bool :=
  if negb (truthy (currentNotes p)) then (handleGenerateNotes_start p, true)
  else if confirmed then
    (handleGenerateNotes_start (clearPreviousNotes p), true)
  else (p, false).

(** [handleDownload] and [handleCopy]: the page they leave and the text they
    put in the file or hand to the clipboard, if any; [None] when
    [formatNotesForDownload] throws, which nothing catches. The file name
    carries the clock and is left out. *)
Definition handleDownload (p : Page) : option (Page * option jsstring) :=
  if negb (truthy (currentNotes p)) then
    Some (showError p (lit "No notes available to download"), None)
  else
    text <- formatNotesForDownload (structuredNotes p) ;;
    Some (p, Some text).

Definition handleCopy (p : Page) : option (Page * option jsstring) :=
  if negb (truthy (currentNotes p)) then
    Some (showError p (lit "No notes available to copy"), None)
  else
    text <- formatNotesForDownload (structuredNotes p) ;;
    Some (p, Some text).

(** The [then] and [catch] of [clipboard.writeText]. *)
Definition handleCopy_settled (p : Page) (ok : bool) : Page :=
  if ok then p else showError p (lit "Failed to copy notes").

Definition handlePrint (p : Page) : Page :=
  if negb (truthy (currentNotes p)) then
    showError p (lit "No notes available to print")
  else p.

Definition handleShareNotes (p : Page) : Page :=
  if negb (truthy (currentNotes p)) then
    showError p (lit "No notes available to share")
  else p.

(** *** The page under the event loop

    The page with the requests that wait for a reply, the timers of
    [checkForExistingNotes], the clipboard writes that have not settled, and
    the texts saved and copied so far. *)
Record Session : Type := {
  page : Page;
  generateInFlight : nat;
  checkInFlight : nat;
  checkTimers : list nat;
  copyInFlight : nat;
  saved : list jsstring;
  copied : list jsstring
}.

Inductive PageEvent : Type :=
| ExistingNotesReply (reply : Outcome)
| ExistingNotesTimer
| GenerateClick
| GenerateReply (reply : Outcome)
| GenerateTimer
| RefreshClick (confirmed : bool)
| RetryClick
| DownloadClick
| CopyClick
| CopySettled (ok : bool)
| PrintClick
| ShareClick
| ExportPdfClick.

Definition withPage (s : Session) (p : Page) : Session :=
  {| page := p; generateInFlight := generateInFlight s;
     checkInFlight := checkInFlight s; checkTimers := checkTimers s;
     copyInFlight := copyInFlight s; saved := saved s; copied := copied s |}.

(** A run of [handleGenerateNotes] reaches its [await]. *)
Definition generateStarted (s : Session) (p : Page) : Session :=
  {| page := p; generateInFlight := S (generateInFlight s);
     checkInFlight := checkInFlight s; checkTimers := checkTimers s;
     copyInFlight := copyInFlight s; saved := saved s; copied := copied s |}.

(** One task of the event loop; [None] when it ends in an exception that
    nothing catches. An event that cannot occur in the state (a reply
    without a request, a timer that was not set) changes nothing. *)
Definition sessionStep (s : Session) (e : PageEvent) : option Session :=
  match e with
  | ExistingNotesReply reply =>
      match checkInFlight s with
      | O => Some s
      | S k =>
          let (p, timer) := checkForExistingNotes_resume (page s) reply in
          Some {| page := p; generateInFlight := generateInFlight s;
                  checkInFlight := k;
                  checkTimers :=
                    match timer with
                    | Some d => checkTimers s ++ [d]
                    | None => checkTimers s
                    end;
                  copyInFlight := copyInFlight s; saved := saved s;
                  copied := copied s |}
      end
  | ExistingNotesTimer =>
      match checkTimers s with
      | [] => Some s
      | _ :: ts =>
          Some {| page := page s; generateInFlight := generateInFlight s;
                  checkInFlight := S (checkInFlight s); checkTimers := ts;
                  copyInFlight := copyInFlight s; saved := saved s;
                  copied := copied s |}
      end
  | GenerateClick =>
      Some (generateStarted s (handleGenerateNotes_start (page s)))
  | GenerateReply reply =>
      match generateInFlight s with
      | O => Some s
      | S k =>
          Some {| page := handleGenerateNotes_resume (page s) reply;
                  generateInFlight := k;
                  checkInFlight := checkInFlight s;
                  checkTimers := checkTimers s;
                  copyInFlight := copyInFlight s; saved := saved s;
                  copied := copied s |}
      end
  | GenerateTimer =>
      match timers (page s) with
      | [] => Some s
      | _ :: ts =>
          Some (generateStarted s
                  (handleGenerateNotes_start (setTimers (page s) ts)))
      end
  | RefreshClick confirmed =>
      let (p, started) := handleRefresh (page s) confirmed in
      Some (if started then generateStarted s p else withPage s p)
  | RetryClick => Some (generateStarted s (handleRetry (page s)))
  | DownloadClick =>
      r <- handleDownload (page s) ;;
      Some {| page := fst r; generateInFlight := generateInFlight s;
              checkInFlight := checkInFlight s; checkTimers := checkTimers s;
              copyInFlight := copyInFlight s;
              saved := saved s ++ match snd r with
                                  | Some text => [text]
                                  | None => []
                                  end;
              copied := copied s |}
  | CopyClick =>
      r <- handleCopy (page s) ;;
      Some {| page := fst r; generateInFlight := generateInFlight s;
              checkInFlight := checkInFlight s; checkTimers := checkTimers s;
              copyInFlight := match snd r with
                              | Some _ => S (copyInFlight s)
                              | None => copyInFlight s
                              end;
              saved := saved s;
              copied := copied s ++ match snd r with
                                    | Some text => [text]
                                    | None => []
                                    end |}
  | CopySettled ok =>
      match copyInFlight s with
      | O => Some s
      | S k =>
          Some {| page := handleCopy_settled (page s) ok;
                  generateInFlight := generateInFlight s;
                  checkInFlight := checkInFlight s;
                  checkTimers := checkTimers s;
                  copyInFlight := k; saved := saved s; copied := copied s |}
      end
  | PrintClick => Some (withPage s (handlePrint (page s)))
  | ShareClick => Some (withPage s (handleShareNotes (page s)))
  | ExportPdfClick => Some s
  end.

Definition runSession (events : list PageEvent) (s : Session)
  : option Session :=
  forEach sessionStep events s.

End Parser.

(** The module-level variables as the script initialises them, before any
    click; how the panels and the error text start is up to the document. *)
Definition pageAtLoad (ps : Panels) (text : jsstring) : Page :=
  {| currentNotes := []; structuredNotes := []; retryCount := 0;
     panels := ps; errorMessage := text; requests := 0; timers := [] |}.

(** [initPage] has called [checkForExistingNotes], whose request waits for
    its reply. *)
Definition sessionAtLoad (ps : Panels) (text : jsstring) : Session :=
  {| page := pageAtLoad ps text; generateInFlight := 0; checkInFlight := 1;
     checkTimers := []; copyInFlight := 0; saved := []; copied := [] |}.

End Notes.

(* ------------------------------------------------------------------ *)
(** ** qna.js *)

Module Qna.
Import JS.

Inductive MessageType : Type := user | ai.

(** A transcript entry; the time stamp and the confidence badge belong to
    the rendering and are left out. [content] is [None] when the reply has
    no [answer]. *)
Record Message : Type := {
  sender : jsstring;
  content : option jsstring;
  type : MessageType
}.

(** What [sendMessage] does to the outside, in order. *)
Inductive Effect : Type :=
| AppendMessage (m : Message)
| ClearInput
| ShowTyping
| HideTyping
| DisableInput
| EnableInput
| AskQuestion (question : jsstring)
| UpdateStats.

(** The widget: the input element's value and [disabled] flag, the send
    button's [disabled] flag, the typing indicator, the transcript, the
    counter, the [/ask_question] requests without a reply yet, and the trace
    of effects. *)
Record Chat : Type := {
  inputValue : jsstring;
  inputDisabled : bool;
  sendDisabled : bool;
  typingIndicator : bool;
  messages : list Message;
  questionCount : nat;
  pending : list jsstring;
  trace : list Effect
}.

Definition initial : Chat :=
  {| inputValue := []; inputDisabled := false; sendDisabled := false;
     typingIndicator := false; messages := []; questionCount := 0;
     pending := []; trace := [] |}.

Definition addMessage (c : Chat) (m : Message) : Chat :=
  {| inputValue := inputValue c; inputDisabled := inputDisabled c;
     sendDisabled := sendDisabled c; typingIndicator := typingIndicator c;
     messages := messages c ++ [m]; questionCount := questionCount c;
     pending := pending c; trace := trace c ++ [AppendMessage m] |}.

Definition clearInput (c : Chat) : Chat :=
  {| inputValue := []; inputDisabled := inputDisabled c;
     sendDisabled := sendDisabled c; typingIndicator := typingIndicator c;
     messages := messages c; questionCount := questionCount c;
     pending := pending c; trace := trace c ++ [ClearInput] |}.

Definition setTyping (c : Chat) (b : bool) (e : Effect) : Chat :=
  {| inputValue := inputValue c; inputDisabled := inputDisabled c;
     sendDisabled := sendDisabled c; typingIndicator := b;
     messages := messages c; questionCount := questionCount c;
     pending := pending c; trace := trace c ++ [e] |}.

Definition showTypingIndicator (c : Chat) : Chat := setTyping c true ShowTyping.
Definition hideTypingIndicator (c : Chat) : Chat := setTyping c false HideTyping.

Definition setDisabled (c : Chat) (b : bool) (e : Effect) : Chat :=
  {| inputValue := inputValue c; inputDisabled := b;
     sendDisabled := b; typingIndicator := typingIndicator c;
     messages := messages c; questionCount := questionCount c;
     pending := pending c; trace := trace c ++ [e] |}.

Definition disableInput (c : Chat) : Chat := setDisabled c true DisableInput.
Definition enableInput (c : Chat) : Chat := setDisabled c false EnableInput.

Definition updateStats (c : Chat) : Chat :=
  {| inputValue := inputValue c; inputDisabled := inputDisabled c;
     sendDisabled := sendDisabled c; typingIndicator := typingIndicator c;
     messages := messages c; questionCount := questionCount c;
     pending := pending c; trace := trace c ++ [UpdateStats] |}.

Definition countQuestion (c : Chat) : Chat :=
  {| inputValue := inputValue c; inputDisabled := inputDisabled c;
     sendDisabled := sendDisabled c; typingIndicator := typingIndicator c;
     messages := messages c; questionCount := questionCount c + 1;
     pending := pending c; trace := trace c |}.

Definition setInputValue (c : Chat) (v : jsstring) : Chat :=
  {| inputValue := v; inputDisabled := inputDisabled c;
     sendDisabled := sendDisabled c; typingIndicator := typingIndicator c;
     messages := messages c; questionCount := questionCount c;
     pending := pending c; trace := trace c |}.

Definition setPending (c : Chat) (qs : list jsstring) : Chat :=
  {| inputValue := inputValue c; inputDisabled := inputDisabled c;
     sendDisabled := sendDisabled c; typingIndicator := typingIndicator c;
     messages := messages c; questionCount := questionCount c;
     pending := qs; trace := trace c |}.

(** [getAIResponse(question)] up to its first [await]. *)
Definition askQuestion (c : Chat) (question : jsstring) : Chat :=
  {| inputValue := inputValue c; inputDisabled := inputDisabled c;
     sendDisabled := sendDisabled c; typingIndicator := typingIndicator c;
     messages := messages c; questionCount := questionCount c;
     pending := pending c ++ [question];
     trace := trace c ++ [AskQuestion question] |}.

Definition quote : jsstring := [34%N].

Definition showError (c : Chat) (message : jsstring) : Chat :=
  addMessage c
    {| sender := lit "System";
       content := Some (lit "<i class=" ++ quote
                        ++ lit "fas fa-exclamation-triangle" ++ quote
                        ++ lit "></i> " ++ message);
       type := ai |}.

(** The JSON body of a reply to [/ask_question]. *)
Record Response : Type := {
  status : option jsstring;
  answer : option jsstring
}.

(** How [getAIResponse] ends: with a body ([None] for [null], which has no
    properties), or with an exception. *)
Inductive Reply : Type :=
| Resolved (response : option Response)
| Rejected.

Definition isSuccess (r : Response) : bool :=
  match status r with Some s => str_eqb s (lit "success") | None => false end.

Definition addAIReply (c : Chat) (response : Response) : Chat :=
  if isSuccess response then
    addMessage (countQuestion c)
      {| sender := lit "AI Assistant"; content := answer response; type := ai |}
  else
    showError c
      match answer response with
      | Some a => if truthy a then a else lit "Sorry, I encountered an error."
      | None => lit "Sorry, I encountered an error."
      end.

(** [sendMessage] up to its [await]. *)
Definition sendMessage_start (c : Chat) : Chat :=
  let question := trim (inputValue c) in
  if truthy question then
    let c := addMessage c {| sender := lit "You"; content := Some question;
                             type := user |} in
    let c := clearInput c in
    let c := showTypingIndicator c in
    let c := disableInput c in
    askQuestion c question
  else c.

(** [sendMessage] from the reply to its end. *)
Definition sendMessage_resume (c : Chat) (reply : Reply) : Chat :=
  let c :=
    match reply with
    | Resolved (Some response) =>
        updateStats (addAIReply (hideTypingIndicator c) response)
    | Resolved None =>
        showError (hideTypingIndicator (hideTypingIndicator c))
          (lit "Failed to get response. Please try again.")
    | Rejected =>
        showError (hideTypingIndicator c)
          (lit "Failed to get response. Please try again.")
    end in
  enableInput c.

(** What the event loop delivers to the widget. A disabled button receives
    no click, and a disabled text area neither key presses nor edits. *)
Inductive Event : Type :=
| Click
| EnterKey
| Edit (text : jsstring)
| ReplyArrives (reply : Reply).

Definition step (c : Chat) (e : Event) : Chat :=
  match e with
  | Click => if sendDisabled c then c else sendMessage_start c
  | EnterKey => if inputDisabled c then c else sendMessage_start c
  | Edit text => if inputDisabled c then c else setInputValue c text
  | ReplyArrives reply =>
      match pending c with
      | [] => c
      | _ :: rest => sendMessage_resume (setPending c rest) reply
      end
  end.

Definition run (events : list Event) (c : Chat) : Chat :=
  fold_left step events c.

End Qna.

(* ------------------------------------------------------------------ *)
(** ** Properties *)

Import JS Notes.

(** *** The states the line pass can reach *)

Definition hasSubsections (s : Section) : Prop :=
  exists subs, subsections s = Some subs.

(** An open section was built by the heading branch, so both of its arrays
    exist, and an open subsection is one of its subsections. *)
Definition wfState (st : ParseState) : Prop :=
  match currentSection st with
  | Some cs =>
      (exists c, content cs = Some c)
      /\ exists subs, subsections cs = Some subs
                      /\ match currentSubsection st with
                         | Some i => i < length subs
                         | None => True
                         end
  | None => currentSubsection st = None
  end
  /\ Forall hasSubsections (sections st).

(** No section has been opened yet. *)
Definition noSectionYet (st : ParseState) : Prop :=
  sections st = [] /\ currentSection st = None /\ currentSubsection st = None.

(** The two controls are switched together, at most one question waits for
    its reply, and the controls are disabled while one does. *)
Definition guarded (c : Qna.Chat) : Prop :=
  Qna.inputDisabled c = Qna.sendDisabled c
  /\ (Qna.pending c = []
      \/ (exists q, Qna.pending c = [q]) /\ Qna.inputDisabled c = true).

(** *** Predicates of the further properties *)

(** The title that a section heading line gives its section. *)
Definition sectionTitle (l : jsstring) : jsstring :=
  strip re_section_mark (trim l).

(** The last character, if there is one, is not white space. *)
Definition endsClean (s : jsstring) : Prop :=
  match rev s with
  | c :: _ => isWhiteSpace c = false
  | [] => True
  end.

(** No title, paragraph or point is the empty string. *)
Definition cleanSubsection (sub : Subsection) : Prop :=
  sub_title sub <> []
  /\ Forall (fun x => x <> []) (orEmpty (sub_points sub)).

Definition cleanSection (s : Section) : Prop :=
  title s <> []
  /\ Forall (fun x => x <> []) (orEmpty (content s))
  /\ Forall (fun x => x <> []) (orEmpty (points s))
  /\ Forall cleanSubsection (orEmpty (subsections s)).

(** The two shapes of a section: with paragraphs and without points, or the
    synthesized one. *)
Definition plainSection (s : Section) : Prop :=
  (exists c, content s = Some c) /\ points s = None.

Definition synthesizedSection (s : Section) : Prop :=
  title s = lit "Key Points" /\ content s = None
  /\ exists kps, points s = Some kps /\ kps <> [].

(** The tree on the page is the parser's output for the notes on the page. *)
Definition inSync (toLowerCase : jsstring -> jsstring) (p : Page) : Prop :=
  (currentNotes p = [] /\ structuredNotes p = [])
  \/ (currentNotes p <> []
      /\ Notes.parseStructuredNotes toLowerCase (currentNotes p)
         = Some (structuredNotes p)).

Definition loadingOnly : Panels :=
  {| loadingState := block; contentPlaceholder := none;
     notesResult := none; errorState := none |}.
Definition resultOnly : Panels :=
  {| loadingState := none; contentPlaceholder := none;
     notesResult := block; errorState := none |}.
Definition errorOnly : Panels :=
  {| loadingState := none; contentPlaceholder := none;
     notesResult := none; errorState := block |}.

(** The questions sent to [/ask_question] and the texts of the user's
    messages, in order. *)
Fixpoint asked (es : list Qna.Effect) : list jsstring :=
  match es with
  | [] => []
  | Qna.AskQuestion q :: es' => q :: asked es'
  | _ :: es' => asked es'
  end.

Fixpoint userTexts (ms : list Qna.Message) : list (option jsstring) :=
  match ms with
  | [] => []
  | m :: ms' =>
      match Qna.type m with
      | Qna.user => Qna.content m :: userTexts ms'
      | Qna.ai => userTexts ms'
      end
  end.

(** What holds of the widget between two tasks. *)
Definition settled (c : Qna.Chat) : Prop :=
  guarded c
  /\ (Qna.typingIndicator c = true <-> Qna.pending c <> [])
  /\ (Qna.pending c <> [] -> Qna.inputValue c = [])
  /\ userTexts (Qna.messages c) = map Some (asked (Qna.trace c))
  /\ Forall (fun q => q <> [] /\ trim q = q) (asked (Qna.trace c))
  /\ Qna.questionCount c + length (Qna.pending c)
     <= length (asked (Qna.trace c)).

(** The two properties above, of the sections the line pass has made so
    far and of the points it has accumulated. *)
Definition cleanState (st : ParseState) : Prop :=
  Forall cleanSection (pushSection st)
  /\ Forall (fun x => x <> []) (keyPoints st).

Definition plainState (st : ParseState) : Prop :=
  Forall plainSection (pushSection st).

(** The points a section shows: its own and those of its subsections. *)
Definition pointsOfSubsections (subs : list Subsection) : nat :=
  list_sum (map (fun sub => length (orEmpty (sub_points sub))) subs).

Definition pointsOfSection (s : Section) : nat :=
  length (orEmpty (points s)) + pointsOfSubsections (orEmpty (subsections s)).

(** A text that is the export of the parser's output for some notes. *)
Definition exported (toLowerCase : jsstring -> jsstring) (text : jsstring)
  : Prop :=
  exists notes secs,
    notes <> []
    /\ Notes.parseStructuredNotes toLowerCase notes = Some secs
    /\ text = exportLayout secs.

Definition sessionInvariant (toLowerCase : jsstring -> jsstring)
  (s : Session) : Prop :=
  inSync toLowerCase (page s)
  /\ Forall (exported toLowerCase) (saved s)
  /\ Forall (exported toLowerCase) (copied s).

(** *** Words of the specification *)

(** A line whose trimmed form matches one of the two heading markers. *)
Definition isSectionHeading (l : jsstring) : bool :=
  matches re_section (trim l).
Definition isSubsectionHeading (l : jsstring) : bool :=
  matches re_subsection (trim l).
Definition isNumberedLine (l : jsstring) : bool :=
  matches re_numbered (trim l).

(** The text of a numbered line, and a subsection heading whose title
    contains "key points" once lowered by the engine's [toLowerCase]. *)
Definition numberedItem (l : jsstring) : jsstring :=
  strip re_numbered_mark (trim l).
Definition isKeyPointsHeading (toLowerCase : jsstring -> jsstring)
  (l : jsstring) : bool :=
  isSubsectionHeading l
  && isKeyPointsTitle toLowerCase (strip re_subsection_mark (trim l)).

Definition noHeadings (notes : jsstring) : Prop :=
  Forall (fun l => isSectionHeading l = false /\ isSubsectionHeading l = false)
         (split_nl notes).

(** [a.join('\n')] *)
Fixpoint joinLines (ls : list jsstring) : jsstring :=
  match ls with
  | [] => []
  | [l] => l
  | l :: ls' => l ++ nl ++ joinLines ls'
  end.

(** The input with its blank lines removed and every other line trimmed. *)
Definition trimmedLines (notes : jsstring) : jsstring :=
  joinLines (map trim (linesOf notes)).

(** The input of the worked example of the specification. *)
Definition sample : jsstring :=
  lit "# Overview" ++ nl ++ lit "Some intro" ++ nl ++ lit "## Key Points" ++ nl
  ++ lit "1. First" ++ nl ++ lit "2. Second" ++ nl ++ lit "# Details" ++ nl
  ++ lit "- a detail".

(** *** The export loop as a concatenation of blocks *)

Lemma foldI_blocks {A} (f : jsstring -> A -> nat -> jsstring)
  (g : nat * A -> jsstring) :
  (forall out x k, f out x k = out ++ g (S k, x)) ->
  forall l i out,
    foldI f l i out = out ++ concat (map g (combine (seq (S i) (length l)) l)).
Proof.
  intros Hf l. induction l as [|x l IH]; intros i out; simpl.
  - now rewrite app_nil_r.
  - rewrite IH, Hf, <- app_assoc. reflexivity.
Qed.

Lemma map_numbered_snd {A B} (h : A -> B) (l : list A) : forall a,
  map (fun e : nat * A => h (snd e)) (combine (seq a (length l)) l) = map h l.
Proof.
  induction l as [|x l IH]; intros a; simpl; [reflexivity|].
  now rewrite IH.
Qed.

Lemma formatSubsection_block out sub k :
  formatSubsection out sub k = out ++ subsectionBlock (S k, sub).
Proof.
  unfold formatSubsection, subsectionBlock, line, blank.
  rewrite Nat.add_1_r.
  destruct (sub_points sub) as [ps|]; cbn [orEmpty].
  - rewrite (foldI_blocks _
               (fun e => (lit "      " ++ bulletMark ++ lit " " ++ snd e) ++ nl)).
    + rewrite (map_numbered_snd
                 (fun p => (lit "      " ++ bulletMark ++ lit " " ++ p) ++ nl)).
      repeat rewrite <- app_assoc. reflexivity.
    + intros; cbn [snd]. repeat rewrite <- app_assoc. reflexivity.
  - cbn [concat map]. repeat rewrite <- app_assoc. reflexivity.
Qed.

Lemma formatSection_block out s k subs :
  subsections s = Some subs ->
  formatSection out s k = Some (out ++ sectionBlock (S k, s)).
Proof.
  intros Hs. unfold formatSection, sectionBlock, keyPointsBlock, numbered,
    line, blank.
  rewrite Hs, Nat.add_1_r. cbn [bind orEmpty]. f_equal.
  rewrite (foldI_blocks formatSubsection subsectionBlock formatSubsection_block).
  assert (Hc : forall o,
    match content s with
    | Some paragraphs =>
        foldI (fun out paragraph (_ : nat) => out ++ paragraph ++ nl ++ nl)
          paragraphs 0 o
    | None => o
    end = o ++ concat (map (fun p => (p ++ nl) ++ nl) (orEmpty (content s)))).
  { intros o. destruct (content s) as [ps|]; cbn [orEmpty].
    - rewrite (foldI_blocks _ (fun e => (snd e ++ nl) ++ nl)).
      + now rewrite (map_numbered_snd (fun p => (p ++ nl) ++ nl)).
      + intros; cbn [snd]. now rewrite <- !app_assoc.
    - cbn [concat map]. now rewrite app_nil_r. }
  rewrite Hc.
  destruct (points s) as [ps|].
  - rewrite (foldI_blocks _
       (fun e : nat * jsstring =>
          (lit "  " ++ decimal (fst e) ++ lit ". " ++ snd e) ++ nl)).
    + repeat rewrite <- app_assoc. reflexivity.
    + intros; cbn [fst snd]. rewrite Nat.add_1_r.
      repeat rewrite <- app_assoc. reflexivity.
  - cbn [app]. repeat rewrite <- app_assoc. reflexivity.
Qed.

Lemma forEachI_formatSection secs :
  Forall hasSubsections secs ->
  forall i out,
    forEachI formatSection secs i out
    = Some (out ++ concat (map sectionBlock
                             (combine (seq (S i) (length secs)) secs))).
Proof.
  induction 1 as [|s secs [subs Hs] _ IH]; intros i out;
    cbn [forEachI length seq combine].
  - cbn [map concat]. now rewrite app_nil_r.
  - rewrite (formatSection_block out s i subs Hs). cbn [bind map concat].
    rewrite IH, <- app_assoc. reflexivity.
Qed.

Lemma format_is_layout secs :
  Forall hasSubsections secs ->
  formatNotesForDownload secs = Some (exportLayout secs).
Proof.
  intros H. unfold formatNotesForDownload, exportLayout, numbered, line, blank.
  rewrite (forEachI_formatSection _ H). now rewrite <- !app_assoc.
Qed.

Section ParserProperties.

Variable toLowerCase : jsstring -> jsstring.

Local Abbreviation processLine := (Notes.processLine toLowerCase).
Local Abbreviation postPass := (Notes.postPass toLowerCase).
Local Abbreviation parseStructuredNotes := (Notes.parseStructuredNotes toLowerCase).
Local Abbreviation isOverview := (Notes.isOverview toLowerCase).
Local Abbreviation isKeyPointsTitle := (Notes.isKeyPointsTitle toLowerCase).

Lemma wfState_initial : wfState initial.
Proof. split; [reflexivity | constructor]. Qed.

Lemma pushSection_hasSubsections st :
  wfState st -> Forall hasSubsections (pushSection st).
Proof.
  intros [Hcur Hall]. unfold pushSection.
  destruct (currentSection st) as [cs|]; [|assumption].
  apply Forall_app; split; [assumption|].
  constructor; [|constructor].
  destruct Hcur as [_ [subs [Hs _]]]. now exists subs.
Qed.

Lemma updateAt_length {A} i (x : A) l : length (updateAt i x l) = length l.
Proof.
  revert i; induction l as [|y l IH]; intros [|i]; simpl; auto.
Qed.

(** The callback never throws on a reachable state, and the state it leaves
    is reachable again. *)
Lemma processLine_wf st line0 :
  wfState st -> exists st', processLine st line0 = Some st' /\ wfState st'.
Proof.
  intros Hwf. pose proof (pushSection_hasSubsections _ Hwf) as Hpush.
  destruct Hwf as [Hcur Hall]. unfold Notes.processLine.
  set (line := trim line0).
  destruct (matches re_section line).
  { eexists; split; [reflexivity|]. split; simpl; [|assumption].
    split; [now exists []|]. exists []; split; [reflexivity | exact I]. }
  destruct (matches re_subsection line).
  { destruct (currentSection st) as [cs|] eqn:Ecs.
    - destruct Hcur as [[c Hc] [subs [Hs _]]]. rewrite Hs. simpl.
      eexists; split; [reflexivity|]. split; simpl; [|assumption].
      split; [now exists c|]. eexists; split; [reflexivity|].
      rewrite length_app; simpl; lia.
    - eexists; split; [reflexivity|]. split; simpl; assumption. }
  destruct (matches re_numbered line && inKeyPoints st).
  { eexists; split; [reflexivity|]. split; simpl; assumption. }
  destruct (matches re_bullet line).
  { destruct (currentSection st) as [cs|] eqn:Ecs.
    - destruct Hcur as [[c Hc] [subs [Hs Hi]]].
      destruct (currentSubsection st) as [i|] eqn:Ei.
      + simpl. rewrite Hs. simpl.
        destruct (nth_error subs i) as [sub|] eqn:En.
        * simpl. eexists; split; [reflexivity|].
          split; simpl; [|assumption]. rewrite Ei.
          split; [now exists c|]. eexists; split; [reflexivity|].
          now rewrite updateAt_length.
        * apply nth_error_None in En. lia.
      + unfold pushContent. rewrite Hc. simpl.
        eexists; split; [reflexivity|]. split; simpl; [|assumption].
        rewrite Ei. split; [eexists; reflexivity|]. now exists subs.
    - rewrite Hcur. eexists; split; [reflexivity|].
      split; [|assumption]. now rewrite Ecs. }
  destruct ((0 <? length line) && negb (matches re_hash line)
            && negb (matches re_hash2 line)).
  { destruct (currentSection st) as [cs|] eqn:Ecs.
    - destruct (5 <? length line).
      + destruct Hcur as [[c Hc] [subs [Hs Hi]]].
        unfold pushContent. rewrite Hc. simpl.
        eexists; split; [reflexivity|]. split; simpl; [|assumption].
        split; [eexists; reflexivity|]. now exists subs.
      + eexists; split; [reflexivity|]. split; [|assumption]. now rewrite Ecs.
    - eexists; split; [reflexivity|]. split; [|assumption]. now rewrite Ecs. }
  eexists; split; [reflexivity|]. now split.
Qed.

Lemma forEach_wf lines : forall st,
  wfState st ->
  exists st', forEach processLine lines st = Some st' /\ wfState st'.
Proof.
  induction lines as [|l lines IH]; intros st Hwf; simpl.
  - now exists st.
  - destruct (processLine_wf st l Hwf) as [st1 [E1 Hwf1]].
    rewrite E1. simpl. now apply IH.
Qed.

Lemma forEach_app {A St} (f : St -> A -> option St) l1 l2 s :
  forEach f (l1 ++ l2) s = bind (forEach f l1 s) (forEach f l2).
Proof.
  revert s; induction l1 as [|x l1 IH]; intros s; simpl; [reflexivity|].
  destruct (f s x); simpl; auto.
Qed.

Lemma splice_Forall {A} (P : A -> Prop) n x l :
  P x -> Forall P l -> Forall P (splice n x l).
Proof.
  intros Hx Hl. unfold splice.
  rewrite <- (firstn_skipn n l) in Hl. apply Forall_app in Hl.
  destruct Hl as [Hpre Hpost].
  apply Forall_app; split; [assumption | now constructor].
Qed.

Lemma postPass_hasSubsections st :
  wfState st -> Forall hasSubsections (postPass st).
Proof.
  intros Hwf. pose proof (pushSection_hasSubsections _ Hwf) as Hp.
  unfold Notes.postPass.
  assert (Hk : hasSubsections (keyPointsSection (keyPoints st)))
    by (now exists []).
  destruct ((0 <? length (keyPoints st)) && (0 <? length (pushSection st)));
    [|assumption].
  destruct (findIndex isOverview (pushSection st));
    now apply splice_Forall.
Qed.

Lemma linePass_total notes :
  exists st,
    forEach processLine (linesOf notes) initial = Some st /\ wfState st.
Proof. apply forEach_wf, wfState_initial. Qed.

(** C7: [parseStructuredNotes] returns on every input, with at least one
    section; when the line pass and the post-pass leave no section the result
    is the single fallback section, and otherwise it is what they left. *)
Theorem parseStructuredNotes_total (notes : jsstring) :
  exists st secs,
    forEach processLine (linesOf notes) initial = Some st
    /\ parseStructuredNotes notes = Some secs
    /\ secs <> []
    /\ (postPass st = [] -> secs = createFallbackStructure notes)
    /\ (postPass st <> [] -> secs = postPass st).
Proof.
  destruct (linePass_total notes) as [st [E _]].
  exists st. unfold Notes.parseStructuredNotes. rewrite E. cbn [bind].
  destruct (postPass st) as [|s secs] eqn:Ep; cbn [length Nat.ltb Nat.leb].
  - eexists; repeat split; try reflexivity; [discriminate | congruence].
  - eexists; repeat split; try reflexivity; [discriminate | discriminate].
Qed.

(** C10: every section that [parseStructuredNotes] returns has a
    [subsections] array, so [formatNotesForDownload] reads it without a
    fault on every output of the parser. *)
Theorem parse_output_has_subsections (notes : jsstring) :
  exists secs out,
    parseStructuredNotes notes = Some secs
    /\ Forall hasSubsections secs
    /\ formatNotesForDownload secs = Some out.
Proof.
  destruct (linePass_total notes) as [st [E Hwf]].
  assert (H : exists secs, parseStructuredNotes notes = Some secs
                           /\ Forall hasSubsections secs).
  { unfold Notes.parseStructuredNotes. rewrite E. cbn [bind].
    eexists; split; [reflexivity|].
    destruct (0 <? length (postPass st)).
    - now apply postPass_hasSubsections.
    - constructor; [now exists [] | constructor]. }
  destruct H as [secs [Ep Hs]].
  exists secs, (exportLayout secs). auto using format_is_layout.
Qed.

(** Without a section heading the loop opens no section. *)
Lemma processLine_noSectionYet st l :
  noSectionYet st -> isSectionHeading l = false ->
  exists st', processLine st l = Some st' /\ noSectionYet st'.
Proof.
  intros (Hs & Hc & Hsub) Hl. unfold isSectionHeading in Hl.
  unfold Notes.processLine. rewrite Hl, Hc, Hsub.
  destruct (matches re_subsection (trim l)).
  { eexists; split; [reflexivity|]. repeat split; assumption. }
  destruct (matches re_numbered (trim l) && inKeyPoints st).
  { eexists; split; [reflexivity|]. repeat split; assumption. }
  destruct (matches re_bullet (trim l)).
  { eexists; split; [reflexivity|]. repeat split; assumption. }
  destruct ((0 <? length (trim l)) && negb (matches re_hash (trim l))
            && negb (matches re_hash2 (trim l)));
    (eexists; split; [reflexivity|]; repeat split; assumption).
Qed.

Lemma forEach_noSectionYet lines : forall st,
  noSectionYet st -> Forall (fun l => isSectionHeading l = false) lines ->
  exists st', forEach processLine lines st = Some st' /\ noSectionYet st'.
Proof.
  induction lines as [|l lines IH]; intros st Hst Hall; simpl.
  - now exists st.
  - inversion Hall as [|? ? Hl Hrest]; subst.
    destruct (processLine_noSectionYet st l Hst Hl) as [st1 [E1 H1]].
    rewrite E1. cbn [bind]. now apply IH.
Qed.

Lemma parse_without_sections notes :
  Forall (fun l => isSectionHeading l = false) (linesOf notes) ->
  parseStructuredNotes notes = Some (createFallbackStructure notes).
Proof.
  intros Hall.
  destruct (forEach_noSectionYet (linesOf notes) initial) as [st [E Hst]];
    [repeat split | assumption |].
  unfold Notes.parseStructuredNotes. rewrite E. cbn [bind].
  destruct Hst as (Hs & Hc & _).
  unfold Notes.postPass, pushSection. rewrite Hc, Hs.
  cbn [length]. rewrite andb_false_r. reflexivity.
Qed.

(** C2, amended: on an input none of whose lines is a heading once trimmed,
    [parseStructuredNotes] returns exactly one section, titled
    "Content Notes", without points or subsections, whose single content
    paragraph is the input itself, as it was given. *)
Theorem parse_no_headings_fallback (notes : jsstring) :
  noHeadings notes ->
  parseStructuredNotes notes
  = Some [ {| title := lit "Content Notes"; content := Some [notes];
              points := None; subsections := Some [] |} ].
Proof.
  intros H. apply parse_without_sections.
  apply Forall_forall. intros l Hin.
  apply filter_In in Hin. destruct Hin as [Hin _].
  unfold noHeadings in H. rewrite Forall_forall in H.
  now destruct (H l Hin).
Qed.

(** C3: on the worked example the parser returns three sections in this
    order: "Overview" with the content ["Some intro"] and one subsection
    "Key Points" whose points are empty; the synthesized "Key Points" section
    with the points "First" and "Second", right after "Overview"; and
    "Details" with the content ["a detail"]. The engine's [toLowerCase] is
    only asked to lower Basic Latin letters the usual way. *)
Theorem parse_sample :
  (forall s, isBasicLatin s = true -> toLowerCase s = lowerBasicLatin s) ->
  parseStructuredNotes sample
  = Some [ {| title := lit "Overview";
              content := Some [lit "Some intro"];
              points := None;
              subsections := Some [ {| sub_title := lit "Key Points";
                                       sub_points := Some [] |} ] |};
           {| title := lit "Key Points";
              content := None;
              points := Some [lit "First"; lit "Second"];
              subsections := Some [] |};
           {| title := lit "Details";
              content := Some [lit "a detail"];
              points := None;
              subsections := Some [] |} ].
Proof.
  intros Hlower.
  pose proof (Hlower (lit "Key Points") eq_refl) as Hk.
  pose proof (Hlower (lit "Overview") eq_refl) as Ho.
  vm_compute in Hk, Ho.
  vm_compute. rewrite Hk. vm_compute. rewrite Ho. vm_compute. reflexivity.
Qed.

(** The parser on inputs without an overview section and without any
    section. *)
Example parse_inserts_at_index_1 :
  Notes.parseStructuredNotes lowerBasicLatin
    (lit "# Intro" ++ nl ++ lit "## Key points" ++ nl ++ lit "1. A" ++ nl
     ++ lit "# Next")
  = Some [ {| title := lit "Intro"; content := Some []; points := None;
              subsections := Some [ {| sub_title := lit "Key points";
                                       sub_points := Some [] |} ] |};
           {| title := lit "Key Points"; content := None;
              points := Some [lit "A"]; subsections := Some [] |};
           {| title := lit "Next"; content := Some []; points := None;
              subsections := Some [] |} ].
Proof. vm_compute. reflexivity. Qed.

Example parse_orphan_bullet :
  Notes.parseStructuredNotes lowerBasicLatin (lit "- orphan")
  = Some (createFallbackStructure (lit "- orphan")).
Proof. vm_compute. reflexivity. Qed.

Example numbered_patterns :
  matches re_numbered (lit "12.  two") = true
  /\ strip re_numbered_mark (lit "12.  two") = lit "two"
  /\ matches re_numbered (lit "12.") = false
  /\ matches re_section (lit "## x") = false
  /\ strip re_subsection_mark (lit "## Key Points") = lit "Key Points".
Proof. repeat split. Qed.

(** *** The post-pass *)

Lemma findIndex_Some {A} (p : A -> bool) l : forall i,
  findIndex p l = Some i ->
  exists pre x post,
    l = pre ++ x :: post /\ length pre = i /\ p x = true
    /\ Forall (fun y => p y = false) pre.
Proof.
  induction l as [|x l IH]; intros i H; simpl in H; [discriminate|].
  destruct (p x) eqn:Ex.
  - inversion H; subst. exists [], x, l. repeat split; auto.
  - destruct (findIndex p l) as [k|]; [|discriminate].
    inversion H; subst.
    destruct (IH k eq_refl) as (pre & y & post & El & Hlen & Hy & Hpre).
    exists (x :: pre), y, post. subst l. simpl.
    repeat split; auto.
Qed.

Lemma findIndex_None {A} (p : A -> bool) l :
  findIndex p l = None -> Forall (fun y => p y = false) l.
Proof.
  induction l as [|x l IH]; intros H; simpl in H; [constructor|].
  destruct (p x) eqn:Ex; [discriminate|].
  destruct (findIndex p l); [discriminate|].
  constructor; auto.
Qed.

Lemma splice_after {A} (pre : list A) x post k :
  splice (length pre + 1) k (pre ++ x :: post) = (pre ++ [x]) ++ k :: post.
Proof.
  unfold splice. induction pre as [|y pre IH]; simpl; [reflexivity|].
  now rewrite IH.
Qed.

(** C4: at the end of the line pass, when the accumulator holds points and
    the section list is not empty, the result is the section list with one
    more section, titled "Key Points" and carrying the accumulated points,
    placed right after the first section whose title contains "overview"
    whatever the case, or at index 1 when there is none; when the section
    list is empty the result is the fallback, which holds no such section. *)
Theorem keyPoints_section_inserted_once (notes : jsstring) :
  exists st,
    forEach processLine (linesOf notes) initial = Some st
    /\ (keyPoints st <> [] -> pushSection st <> [] ->
        exists pre post,
          pushSection st = pre ++ post
          /\ parseStructuredNotes notes
             = Some (pre ++ {| title := lit "Key Points"; content := None;
                               points := Some (keyPoints st);
                               subsections := Some [] |} :: post)
          /\ ((exists pre' s,
                  pre = pre' ++ [s] /\ isOverview s = true
                  /\ Forall (fun x => isOverview x = false) pre')
              \/ (Forall (fun x => isOverview x = false) (pushSection st)
                  /\ length pre = 1)))
    /\ (pushSection st = [] ->
        parseStructuredNotes notes = Some (createFallbackStructure notes)
        /\ ~ In {| title := lit "Key Points"; content := None;
                   points := Some (keyPoints st); subsections := Some [] |}
                (createFallbackStructure notes)).
Proof.
  destruct (linePass_total notes) as [st [E _]].
  exists st. split; [assumption|].
  unfold Notes.parseStructuredNotes, Notes.postPass. rewrite E. cbn [bind].
  split.
  - intros Hk Hs.
    destruct (keyPoints st) as [|k ks] eqn:Ek; [congruence|].
    destruct (pushSection st) as [|s0 secs] eqn:Es; [congruence|].
    cbn [length Nat.ltb Nat.leb andb].
    fold (keyPointsSection (k :: ks)).
    destruct (findIndex isOverview (s0 :: secs)) as [i|] eqn:Ef.
    + destruct (findIndex_Some _ _ _ Ef)
        as (pre & x & post & El & Hlen & Hx & Hpre).
      exists (pre ++ [x]), post. rewrite El, <- Hlen, splice_after.
      split; [now rewrite <- app_assoc|]. split.
      * destruct (pre ++ [x]) eqn:Epx; [now destruct pre|reflexivity].
      * left. now exists pre, x.
    + exists [s0], secs. split; [reflexivity|]. split; [reflexivity|].
      right. split; [now apply findIndex_None | reflexivity].
  - intros Hs. rewrite Hs. cbn [length]. rewrite andb_false_r.
    split; [reflexivity|].
    intros [H|[]]. discriminate H.
Qed.

(** *** Numbered lines *)

Lemma isDigit_not_char c a :
  isDigit c = true -> isDigit (N_of_ascii a) = false -> isChar a c = false.
Proof.
  intros Hc Ha. unfold isChar. destruct (N.eqb_spec c (N_of_ascii a)); auto.
  subst. congruence.
Qed.

Lemma numbered_starts_with_digit line :
  matches re_numbered line = true ->
  exists c r, line = c :: r /\ isDigit c = true.
Proof.
  unfold matches, re_numbered. destruct line as [|c r]; cbn [exec].
  - discriminate.
  - destruct (isDigit c) eqn:Ec; [|discriminate]. intros _. now exists c, r.
Qed.

(** A numbered line is none of the other kinds of line. *)
Lemma numbered_only line :
  matches re_numbered line = true ->
  matches re_section line = false /\ matches re_subsection line = false
  /\ matches re_bullet line = false /\ matches re_hash line = false
  /\ matches re_hash2 line = false /\ (0 <? length line) = true.
Proof.
  intros H. destruct (numbered_starts_with_digit _ H) as (c & r & -> & Hc).
  pose proof (isDigit_not_char c "#" Hc eq_refl) as Hh.
  pose proof (isDigit_not_char c "-" Hc eq_refl) as Hb.
  unfold matches, re_section, re_subsection, re_bullet, re_hash, re_hash2.
  cbn [exec]. rewrite Hh, Hb. repeat split.
Qed.

(** C5: in a state the line pass reaches with the key-points mode off, a
    line that matches the numbered pattern once trimmed is not taken as a
    list item: with a section open and more than 5 characters in the trimmed
    line, the trimmed line, numeral included, becomes the last paragraph of
    the open section and nothing else changes; otherwise the state is left
    as it was. *)
Theorem numbered_line_outside_key_points
  (lines : list jsstring) (st : ParseState) (l : jsstring) :
  forEach processLine lines initial = Some st ->
  inKeyPoints st = false ->
  isNumberedLine l = true ->
  (forall cs, currentSection st = Some cs -> 5 < length (trim l) ->
     exists c,
       content cs = Some c
       /\ processLine st l
          = Some {| sections := sections st;
                    currentSection :=
                      Some {| title := title cs;
                              content := Some (c ++ [trim l]);
                              points := points cs;
                              subsections := subsections cs |};
                    currentSubsection := currentSubsection st;
                    inKeyPoints := false;
                    keyPoints := keyPoints st |})
  /\ (currentSection st = None \/ length (trim l) <= 5 ->
      processLine st l = Some st).
Proof.
  intros Hreach Hmode Hnum.
  destruct (forEach_wf lines initial wfState_initial) as [st' [E Hwf]].
  rewrite Hreach in E. inversion E; subst st'. clear E.
  destruct (numbered_only _ Hnum) as (H1 & H2 & H3 & H4 & H5 & H6).
  assert (Hstep : processLine st l
                  = match currentSection st with
                    | Some cs => if 5 <? length (trim l)
                                 then pushContent st cs (trim l) else Some st
                    | None => Some st
                    end).
  { unfold Notes.processLine. unfold isNumberedLine in Hnum.
    now rewrite H1, H2, Hnum, Hmode, H3, H4, H5, H6. }
  rewrite Hstep. split.
  - intros cs Hcs Hlen. rewrite Hcs.
    apply Nat.ltb_lt in Hlen. rewrite Hlen.
    destruct Hwf as [Hcur _]. rewrite Hcs in Hcur.
    destruct Hcur as [[c Hc] _]. exists c. split; [assumption|].
    unfold pushContent. rewrite Hc. cbn [bind].
    unfold withCurrentSection, withContent. now rewrite Hmode.
  - intros [Hnone | Hshort].
    + now rewrite Hnone.
    + destruct (currentSection st); [|reflexivity].
      apply Nat.ltb_ge in Hshort. now rewrite Hshort.
Qed.

(** *** A key-points heading before the first section *)

Lemma subsection_not_section line :
  matches re_subsection line = true -> matches re_section line = false.
Proof.
  unfold matches, re_subsection, re_section.
  destruct line as [|a [|b r]]; cbn [exec]; try discriminate.
  - now destruct (isChar "#" a).
  - destruct (isChar "#" a); [|discriminate].
    unfold isChar at 1. destruct (N.eqb_spec b (N_of_ascii "#")).
    + subst b. intros _. reflexivity.
    + discriminate.
Qed.

Lemma processLine_orphan_heading st h :
  noSectionYet st -> isKeyPointsHeading toLowerCase h = true ->
  processLine st h
  = Some {| sections := []; currentSection := None;
            currentSubsection := None; inKeyPoints := true;
            keyPoints := [] |}.
Proof.
  intros (Hs & Hc & Hsub) Hh. unfold isKeyPointsHeading in Hh.
  apply andb_true_iff in Hh. destruct Hh as [Hsubh Hkp].
  unfold isSubsectionHeading in Hsubh.
  unfold Notes.processLine.
  rewrite (subsection_not_section _ Hsubh), Hsubh, Hkp, Hc, Hs, Hsub.
  reflexivity.
Qed.

Lemma forEach_numbered nums : forall secs cur sub acc,
  Forall (fun l => isNumberedLine l = true) nums ->
  forEach processLine nums
    {| sections := secs; currentSection := cur; currentSubsection := sub;
       inKeyPoints := true; keyPoints := acc |}
  = Some {| sections := secs; currentSection := cur;
            currentSubsection := sub; inKeyPoints := true;
            keyPoints := acc ++ map numberedItem nums |}.
Proof.
  induction nums as [|l nums IH]; intros secs cur sub acc Hall;
    cbn [forEach map].
  - now rewrite app_nil_r.
  - inversion Hall as [|? ? Hl Hrest]; subst.
    destruct (numbered_only _ Hl) as (H1 & H2 & _).
    unfold isNumberedLine in Hl.
    unfold Notes.processLine at 1. rewrite H1, H2, Hl.
    cbn [inKeyPoints andb bind keyPoints sections currentSection
         currentSubsection].
    rewrite IH by assumption. now rewrite <- app_assoc.
Qed.

(** Only a key-points heading empties the accumulator. *)
Lemma processLine_keeps_points st l st' :
  processLine st l = Some st' -> isKeyPointsHeading toLowerCase l = false ->
  exists more, keyPoints st' = keyPoints st ++ more.
Proof.
  unfold Notes.processLine, isKeyPointsHeading, isSubsectionHeading.
  intros H Hl.
  destruct (matches re_section (trim l)).
  { inversion H; subst. exists []. simpl. now rewrite app_nil_r. }
  destruct (matches re_subsection (trim l)).
  { cbn [andb] in Hl. rewrite Hl in H.
    destruct (currentSection st) as [cs|].
    - destruct (subsections cs); [|discriminate]. cbn [bind] in H.
      inversion H; subst. exists []. simpl. now rewrite app_nil_r.
    - inversion H; subst. exists []. simpl. now rewrite app_nil_r. }
  destruct (matches re_numbered (trim l) && inKeyPoints st).
  { inversion H; subst. eexists. reflexivity. }
  destruct (matches re_bullet (trim l)).
  { destruct (currentSubsection st).
    - destruct (currentSection st) as [cs|]; [|discriminate]. cbn [bind] in H.
      destruct (subsections cs) as [subs|]; [|discriminate]. cbn [bind] in H.
      destruct (nth_error subs n); [|discriminate]. cbn [bind] in H.
      inversion H; subst. exists []. simpl. now rewrite app_nil_r.
    - destruct (currentSection st) as [cs|].
      + unfold pushContent in H. destruct (content cs); [|discriminate].
        inversion H; subst. exists []. simpl. now rewrite app_nil_r.
      + inversion H; subst. exists []. now rewrite app_nil_r. }
  destruct ((0 <? length (trim l)) && negb (matches re_hash (trim l))
            && negb (matches re_hash2 (trim l))).
  { destruct (currentSection st) as [cs|].
    - destruct (5 <? length (trim l)).
      + unfold pushContent in H. destruct (content cs); [|discriminate].
        inversion H; subst. exists []. simpl. now rewrite app_nil_r.
      + inversion H; subst. exists []. now rewrite app_nil_r.
    - inversion H; subst. exists []. now rewrite app_nil_r. }
  inversion H; subst. exists []. now rewrite app_nil_r.
Qed.

(** A section heading opens a section, and an open section stays open. *)
Lemma processLine_opens st l st' :
  processLine st l = Some st' ->
  isSectionHeading l = true \/ currentSection st <> None ->
  currentSection st' <> None.
Proof.
  unfold Notes.processLine, isSectionHeading. intros H Hor.
  destruct (matches re_section (trim l)).
  { inversion H; subst. discriminate. }
  destruct Hor as [Hor|Hopen]; [discriminate|].
  destruct (currentSection st) as [cs|] eqn:Ecs; [clear Hopen|congruence].
  destruct (matches re_subsection (trim l)).
  { destruct (subsections cs); [|discriminate]. cbn [bind] in H.
    inversion H; subst. discriminate. }
  destruct (matches re_numbered (trim l) && inKeyPoints st).
  { inversion H; subst. discriminate. }
  destruct (matches re_bullet (trim l)).
  { destruct (currentSubsection st).
    - cbn [bind] in H.
      destruct (subsections cs) as [subs|]; [|discriminate]. cbn [bind] in H.
      destruct (nth_error subs n); [|discriminate]. cbn [bind] in H.
      inversion H; subst. discriminate.
    - unfold pushContent in H. destruct (content cs); [|discriminate].
      inversion H; subst. discriminate. }
  destruct ((0 <? length (trim l)) && negb (matches re_hash (trim l))
            && negb (matches re_hash2 (trim l))).
  { destruct (5 <? length (trim l)).
    - unfold pushContent in H. destruct (content cs); [|discriminate].
      inversion H; subst. discriminate.
    - inversion H; subst. congruence. }
  inversion H; subst. congruence.
Qed.

Lemma forEach_keeps_points lines : forall st st',
  forEach processLine lines st = Some st' ->
  Forall (fun l => isKeyPointsHeading toLowerCase l = false) lines ->
  exists more, keyPoints st' = keyPoints st ++ more.
Proof.
  induction lines as [|l lines IH]; intros st st' H Hall; cbn [forEach] in H.
  - inversion H; subst. exists []. now rewrite app_nil_r.
  - inversion Hall as [|? ? Hl Hrest]; subst.
    destruct (processLine st l) as [st1|] eqn:E1; [|discriminate].
    cbn [bind] in H.
    destruct (processLine_keeps_points _ _ _ E1 Hl) as [m1 Hm1].
    destruct (IH _ _ H Hrest) as [m2 Hm2].
    exists (m1 ++ m2). now rewrite Hm2, Hm1, app_assoc.
Qed.

Lemma forEach_opens lines : forall st st',
  forEach processLine lines st = Some st' ->
  Exists (fun l => isSectionHeading l = true) lines
  \/ currentSection st <> None ->
  currentSection st' <> None.
Proof.
  induction lines as [|l lines IH]; intros st st' H Hor; cbn [forEach] in H.
  - inversion H; subst. destruct Hor as [Hex|]; [inversion Hex|assumption].
  - destruct (processLine st l) as [st1|] eqn:E1; [|discriminate].
    cbn [bind] in H. apply (IH _ _ H).
    destruct Hor as [Hex|Hopen].
    + inversion Hex; subst.
      * right. apply (processLine_opens _ _ _ E1). now left.
      * now left.
    + right. apply (processLine_opens _ _ _ E1). now right.
Qed.

Lemma In_splice {A} n (x : A) l : In x (splice n x l).
Proof. unfold splice. apply in_or_app. right. now left. Qed.

Lemma splice_nonempty {A} n (x : A) l : (0 <? length (splice n x l)) = true.
Proof.
  unfold splice. rewrite length_app. apply Nat.ltb_lt. cbn [length]. lia.
Qed.

(** C9, amended: when a subsection heading whose title contains
    "key points" comes before any section heading, no object records the
    subsection, yet the key-points mode is on and the accumulator is empty;
    the numbered lines right after it are accumulated; and when a section
    heading follows and no later subsection heading contains "key points",
    the synthesized "Key Points" section of the result starts with the text
    of those lines. *)
Theorem orphan_key_points_heading
  (notes : jsstring) (pre nums rest : list jsstring) (h : jsstring) :
  linesOf notes = pre ++ h :: nums ++ rest ->
  Forall (fun l => isSectionHeading l = false) pre ->
  isKeyPointsHeading toLowerCase h = true ->
  Forall (fun l => isNumberedLine l = true) nums ->
  nums <> [] ->
  Exists (fun l => isSectionHeading l = true) rest ->
  Forall (fun l => isKeyPointsHeading toLowerCase l = false) rest ->
  forEach processLine (pre ++ [h]) initial
  = Some {| sections := []; currentSection := None;
            currentSubsection := None; inKeyPoints := true;
            keyPoints := [] |}
  /\ forEach processLine (pre ++ h :: nums) initial
     = Some {| sections := []; currentSection := None;
               currentSubsection := None; inKeyPoints := true;
               keyPoints := map numberedItem nums |}
  /\ exists more secs,
       parseStructuredNotes notes = Some secs
       /\ In {| title := lit "Key Points"; content := None;
                points := Some (map numberedItem nums ++ more);
                subsections := Some [] |} secs.
Proof.
  intros Hlines Hpre Hh Hnums Hne Hsec Hrest.
  destruct (forEach_noSectionYet pre initial) as [st1 [E1 Hst1]];
    [repeat split | assumption |].
  assert (Eh : forEach processLine (pre ++ [h]) initial
               = Some {| sections := []; currentSection := None;
                         currentSubsection := None; inKeyPoints := true;
                         keyPoints := [] |}).
  { rewrite forEach_app, E1. cbn [bind forEach].
    rewrite (processLine_orphan_heading _ _ Hst1 Hh). reflexivity. }
  assert (En : forEach processLine (pre ++ h :: nums) initial
               = Some {| sections := []; currentSection := None;
                         currentSubsection := None; inKeyPoints := true;
                         keyPoints := map numberedItem nums |}).
  { replace (pre ++ h :: nums) with ((pre ++ [h]) ++ nums)
      by (now rewrite <- app_assoc).
    rewrite forEach_app, Eh. cbn [bind].
    now rewrite forEach_numbered. }
  split; [assumption|]. split; [assumption|].
  set (st2 := {| sections := []; currentSection := None;
                 currentSubsection := None; inKeyPoints := true;
                 keyPoints := map numberedItem nums |}) in *.
  assert (Hwf2 : wfState st2) by (split; [reflexivity | constructor]).
  destruct (forEach_wf rest st2 Hwf2) as [st3 [E3 _]].
  destruct (forEach_keeps_points _ _ _ E3 Hrest) as [more Hmore].
  pose proof (forEach_opens _ _ _ E3 (or_introl Hsec)) as Hopen.
  exists more.
  unfold Notes.parseStructuredNotes. rewrite Hlines.
  replace (pre ++ h :: nums ++ rest) with ((pre ++ h :: nums) ++ rest)
    by (now rewrite <- app_assoc).
  rewrite forEach_app, En. cbn [bind]. rewrite E3. cbn [bind].
  eexists; split; [reflexivity|].
  assert (Hk : (0 <? length (keyPoints st3)) = true).
  { rewrite Hmore. cbn [keyPoints st2].
    destruct nums; [congruence | reflexivity]. }
  assert (Hs : (0 <? length (pushSection st3)) = true).
  { unfold pushSection. destruct (currentSection st3); [|congruence].
    rewrite length_app. apply Nat.ltb_lt. cbn [length]. lia. }
  unfold Notes.postPass. rewrite Hk, Hs, Hmore. cbn [andb].
  destruct (findIndex isOverview (pushSection st3));
    rewrite splice_nonempty; exact (In_splice _ _ _).
Qed.

End ParserProperties.

(** *** The text export *)

(** C6: for every list of sections, each with its [subsections] array as
    the data model has it, [formatNotesForDownload] returns the layout of
    [exportLayout]: the line "VIDEO NOTES" and a blank line; then for each
    section in order the line "<n>. <title>" counted from 1, a line of "="
    repeated length of the title plus 4 times and a blank line, each content
    paragraph on a line of its own followed by a blank line, when [points] is
    present the line "Key Points:", one line per point numbered from 1 and a
    blank line, then for each subsection a sub-heading line numbered from 1,
    one marked line per point when it has points and a blank line, and a
    blank line after the section. *)
Theorem formatNotesForDownload_layout (secs : list Section) :
  Forall hasSubsections secs ->
  formatNotesForDownload secs = Some (exportLayout secs).
Proof. apply format_is_layout. Qed.

(** The export of a small tree, character by character. *)
Example formatNotesForDownload_text :
  formatNotesForDownload
    [ {| title := lit "Intro"; content := Some [lit "Hello there"];
         points := Some [lit "One"];
         subsections := Some [ {| sub_title := lit "More";
                                  sub_points := Some [lit "x"] |} ] |} ]
  = Some (lit "VIDEO NOTES" ++ nl ++ nl
          ++ lit "1. Intro" ++ nl
          ++ lit "=========" ++ nl ++ nl
          ++ lit "Hello there" ++ nl ++ nl
          ++ lit "Key Points:" ++ nl
          ++ lit "  1. One" ++ nl ++ nl
          ++ lit "   1. More" ++ nl
          ++ lit "      " ++ bulletMark ++ lit " x" ++ nl ++ nl
          ++ nl).
Proof. vm_compute. reflexivity. Qed.

Lemma formatNotesForDownload_layout_witness :
  formatNotesForDownload
    [ {| title := lit "Key Points"; content := None;
         points := Some [lit "First"; lit "Second"];
         subsections := Some [] |} ]
  = Some (exportLayout
            [ {| title := lit "Key Points"; content := None;
                 points := Some [lit "First"; lit "Second"];
                 subsections := Some [] |} ]).
Proof.
  apply formatNotesForDownload_layout.
  constructor; [exists []; reflexivity | constructor].
Defined.

(** *** Instances on concrete inputs *)

Lemma parse_no_headings_fallback_witness :
  parseStructuredNotes lowerBasicLatin (lit " plain notes")
  = Some [ {| title := lit "Content Notes";
              content := Some [lit " plain notes"];
              points := None; subsections := Some [] |} ].
Proof.
  apply parse_no_headings_fallback.
  unfold noHeadings. repeat constructor.
Defined.

(** C2 as stated fails: the paragraph of the fallback section is the input
    as given, not its trimmed lines. *)
Lemma fallback_paragraph_counterexample :
  noHeadings (lit " plain notes")
  /\ trimmedLines (lit " plain notes") = lit "plain notes"
  /\ parseStructuredNotes lowerBasicLatin (lit " plain notes")
     = Some [ {| title := lit "Content Notes";
                 content := Some [lit " plain notes"];
                 points := None; subsections := Some [] |} ]
  /\ parseStructuredNotes lowerBasicLatin (lit " plain notes")
     <> Some [ {| title := lit "Content Notes";
                  content := Some [trimmedLines (lit " plain notes")];
                  points := None; subsections := Some [] |} ].
Proof.
  split; [unfold noHeadings; repeat constructor|].
  split; [reflexivity|]. split; [reflexivity|].
  vm_compute. discriminate.
Qed.

Lemma parse_sample_witness :
  parseStructuredNotes lowerBasicLatin sample
  = Some [ {| title := lit "Overview";
              content := Some [lit "Some intro"];
              points := None;
              subsections := Some [ {| sub_title := lit "Key Points";
                                       sub_points := Some [] |} ] |};
           {| title := lit "Key Points";
              content := None;
              points := Some [lit "First"; lit "Second"];
              subsections := Some [] |};
           {| title := lit "Details";
              content := Some [lit "a detail"];
              points := None;
              subsections := Some [] |} ].
Proof. exact (parse_sample lowerBasicLatin (fun s _ => eq_refl)). Defined.

Lemma numbered_line_outside_key_points_witness :
  processLine lowerBasicLatin
    {| sections := [];
       currentSection := Some {| title := lit "Steps"; content := Some [];
                                 points := None; subsections := Some [] |};
       currentSubsection := None; inKeyPoints := false; keyPoints := [] |}
    (lit "1. Install it")
  = Some {| sections := [];
            currentSection :=
              Some {| title := lit "Steps";
                      content := Some [lit "1. Install it"];
                      points := None; subsections := Some [] |};
            currentSubsection := None; inKeyPoints := false;
            keyPoints := [] |}.
Proof.
  destruct (numbered_line_outside_key_points lowerBasicLatin
              [lit "# Steps"]
              {| sections := [];
                 currentSection :=
                   Some {| title := lit "Steps"; content := Some [];
                           points := None; subsections := Some [] |};
                 currentSubsection := None; inKeyPoints := false;
                 keyPoints := [] |}
              (lit "1. Install it")
              eq_refl eq_refl eq_refl) as [Hopen _].
  destruct (Hopen {| title := lit "Steps"; content := Some [];
                     points := None; subsections := Some [] |} eq_refl)
    as [c [Hc Hstep]].
  - vm_compute. lia.
  - inversion Hc; subst c. exact Hstep.
Defined.

Lemma orphan_key_points_heading_witness :
  exists more secs,
    parseStructuredNotes lowerBasicLatin
      (lit "## Key Points" ++ nl ++ lit "1. First" ++ nl ++ lit "# Intro")
    = Some secs
    /\ In {| title := lit "Key Points"; content := None;
             points := Some (map numberedItem [lit "1. First"] ++ more);
             subsections := Some [] |} secs.
Proof.
  apply (orphan_key_points_heading lowerBasicLatin
           (lit "## Key Points" ++ nl ++ lit "1. First" ++ nl ++ lit "# Intro")
           [] [lit "1. First"] [lit "# Intro"] (lit "## Key Points")).
  - reflexivity.
  - constructor.
  - reflexivity.
  - repeat constructor.
  - discriminate.
  - constructor. reflexivity.
  - repeat constructor.
Defined.

(** C9 as stated fails: a second key-points heading empties the accumulator,
    and the items gathered after the first one are gone. *)
Lemma orphan_key_points_counterexample :
  linesOf (lit "## Key Points" ++ nl ++ lit "1. First" ++ nl ++ lit "# Intro"
           ++ nl ++ lit "## Key Points" ++ nl ++ lit "2. Second")
  = [] ++ lit "## Key Points" :: [lit "1. First"]
       ++ [lit "# Intro"; lit "## Key Points"; lit "2. Second"]
  /\ isKeyPointsHeading lowerBasicLatin (lit "## Key Points") = true
  /\ isNumberedLine (lit "1. First") = true
  /\ isSectionHeading (lit "# Intro") = true
  /\ parseStructuredNotes lowerBasicLatin
       (lit "## Key Points" ++ nl ++ lit "1. First" ++ nl ++ lit "# Intro"
        ++ nl ++ lit "## Key Points" ++ nl ++ lit "2. Second")
     = Some [ {| title := lit "Intro"; content := Some []; points := None;
                 subsections := Some [ {| sub_title := lit "Key Points";
                                          sub_points := Some [] |} ] |};
              {| title := lit "Key Points"; content := None;
                 points := Some [lit "Second"]; subsections := Some [] |} ]
  /\ ~ (exists more secs,
          parseStructuredNotes lowerBasicLatin
            (lit "## Key Points" ++ nl ++ lit "1. First" ++ nl ++ lit "# Intro"
             ++ nl ++ lit "## Key Points" ++ nl ++ lit "2. Second")
          = Some secs
          /\ In {| title := lit "Key Points"; content := None;
                   points := Some (map numberedItem [lit "1. First"] ++ more);
                   subsections := Some [] |} secs).
Proof.
  repeat (split; [reflexivity|]).
  intros (more & secs & E & Hin).
  vm_compute in E. inversion E; subst secs. clear E.
  vm_compute in Hin. destruct Hin as [H|[H|[]]]; discriminate H.
Qed.

(** *** The polling handler *)

(** A poll answered "processing" leaves the page as the poll before it
    did: one more request, the counter back at 1, a timer pending and the
    loading panel shown. *)
Lemma poll_processing toLowerCase (p : Page) :
  timers p = [RETRY_DELAY] ->
  exists p',
    timerFires toLowerCase p processingReply = Some p'
    /\ requests p' = S (requests p)
    /\ timers p' = [RETRY_DELAY]
    /\ retryCount p' = 1
    /\ errorState (panels p') = none
    /\ loadingState (panels p') = block.
Proof.
  intros Ht. unfold timerFires. rewrite Ht.
  eexists; split; [reflexivity|]. repeat split.
Qed.

Lemma polls_processing toLowerCase n : forall p,
  timers p = [RETRY_DELAY] -> retryCount p = 1 ->
  errorState (panels p) = none -> loadingState (panels p) = block ->
  let p' := polls toLowerCase (repeat processingReply n) p in
  requests p' = requests p + n
  /\ timers p' = [RETRY_DELAY]
  /\ retryCount p' = 1
  /\ errorState (panels p') = none
  /\ loadingState (panels p') = block.
Proof.
  induction n as [|n IH]; intros p Ht Hr He Hl; cbn [repeat polls].
  - rewrite Nat.add_0_r. repeat split; assumption.
  - destruct (poll_processing toLowerCase p Ht)
      as (p1 & E & Hreq & Ht1 & Hr1 & He1 & Hl1).
    rewrite E. specialize (IH p1 Ht1 Hr1 He1 Hl1). cbv zeta in IH.
    rewrite Hreq in IH.
    replace (requests p + S n) with (S (requests p) + n) by lia.
    exact IH.
Qed.

(** C1, what the code does: the handler sets [retryCount] to 0 each time it
    runs, so the counter is 1 after every "processing" reply and never
    reaches [MAX_RETRIES]. After a click and [n] further polls that were all
    answered "processing", [n + 1] requests have been issued, one more poll
    is scheduled [RETRY_DELAY] ms ahead, the loading panel is shown and the
    error panel is not, whatever [n] is. *)
Theorem polling_never_gives_up
  (toLowerCase : jsstring -> jsstring) (ps : Panels) (text : jsstring)
  (n : nat) :
  requests (alwaysProcessing toLowerCase (pageAtLoad ps text) n) = S n
  /\ timers (alwaysProcessing toLowerCase (pageAtLoad ps text) n)
     = [RETRY_DELAY]
  /\ retryCount (alwaysProcessing toLowerCase (pageAtLoad ps text) n) = 1
  /\ errorState (panels (alwaysProcessing toLowerCase (pageAtLoad ps text) n))
     = none
  /\ loadingState
       (panels (alwaysProcessing toLowerCase (pageAtLoad ps text) n))
     = block.
Proof.
  unfold alwaysProcessing, generate.
  apply (polls_processing toLowerCase n
           (handleGenerateNotes toLowerCase (pageAtLoad ps text)
              processingReply));
    reflexivity.
Qed.

(** The eleventh request is issued and a twelfth is scheduled. *)
Example eleventh_poll_is_issued :
  requests (alwaysProcessing lowerBasicLatin
              (pageAtLoad (Build_Panels none block none none) []) 10) = 11
  /\ timers (alwaysProcessing lowerBasicLatin
               (pageAtLoad (Build_Panels none block none none) []) 10)
     = [3000]
  /\ errorState
       (panels (alwaysProcessing lowerBasicLatin
                  (pageAtLoad (Build_Panels none block none none) []) 10))
     = none.
Proof. repeat split. Qed.

(** *** The chat round trip *)

Lemma sendMessage_start_effects (c : Qna.Chat) :
  truthy (trim (Qna.inputValue c)) = true ->
  Qna.trace (Qna.sendMessage_start c)
  = Qna.trace c
    ++ [ Qna.AppendMessage {| Qna.sender := lit "You";
                              Qna.content := Some (trim (Qna.inputValue c));
                              Qna.type := Qna.user |};
         Qna.ClearInput; Qna.ShowTyping; Qna.DisableInput;
         Qna.AskQuestion (trim (Qna.inputValue c)) ]
  /\ Qna.inputDisabled (Qna.sendMessage_start c) = true
  /\ Qna.sendDisabled (Qna.sendMessage_start c) = true
  /\ Qna.pending (Qna.sendMessage_start c)
     = Qna.pending c ++ [trim (Qna.inputValue c)].
Proof.
  intros Hq. unfold Qna.sendMessage_start. rewrite Hq. cbn.
  repeat rewrite <- app_assoc. repeat split.
Qed.

Lemma sendMessage_resume_effects (c : Qna.Chat) (reply : Qna.Reply) :
  Qna.inputDisabled (Qna.sendMessage_resume c reply) = false
  /\ Qna.sendDisabled (Qna.sendMessage_resume c reply) = false
  /\ Qna.pending (Qna.sendMessage_resume c reply) = Qna.pending c
  /\ exists es m,
       Qna.trace (Qna.sendMessage_resume c reply)
       = Qna.trace c ++ es ++ [Qna.EnableInput]
       /\ In (Qna.AppendMessage m) es
       /\ Forall (fun e => e <> Qna.EnableInput /\ e <> Qna.DisableInput) es.
Proof.
  destruct reply as [[response|]|]; unfold Qna.sendMessage_resume.
  - unfold Qna.addAIReply. destruct (Qna.isSuccess response); cbn.
    + repeat split.
      exists [Qna.HideTyping;
              Qna.AppendMessage {| Qna.sender := lit "AI Assistant";
                                   Qna.content := Qna.answer response;
                                   Qna.type := Qna.ai |};
              Qna.UpdateStats].
      eexists. repeat rewrite <- app_assoc. split; [reflexivity|].
      split; [right; left; reflexivity|].
      repeat constructor; discriminate.
    + repeat split.
      eexists [Qna.HideTyping; Qna.AppendMessage _; Qna.UpdateStats].
      eexists. repeat rewrite <- app_assoc. split; [reflexivity|].
      split; [right; left; reflexivity|].
      repeat constructor; discriminate.
  - cbn. repeat split.
    eexists [Qna.HideTyping; Qna.HideTyping; Qna.AppendMessage _].
    eexists. repeat rewrite <- app_assoc. split; [reflexivity|].
    split; [right; right; left; reflexivity|].
    repeat constructor; discriminate.
  - cbn. repeat split.
    eexists [Qna.HideTyping; Qna.AppendMessage _].
    eexists. repeat rewrite <- app_assoc. split; [reflexivity|].
    split; [right; left; reflexivity|].
    repeat constructor; discriminate.
Qed.

Lemma guarded_initial : guarded Qna.initial.
Proof. split; [reflexivity | now left]. Qed.

Lemma guarded_enabled_idle (c : Qna.Chat) :
  guarded c -> Qna.inputDisabled c = false -> Qna.pending c = [].
Proof.
  intros [_ [Hp | [_ Hd]]] He; [assumption | congruence].
Qed.

Lemma guarded_sendMessage_start (c : Qna.Chat) :
  guarded c -> Qna.inputDisabled c = false ->
  guarded (Qna.sendMessage_start c).
Proof.
  intros Hg He. pose proof (guarded_enabled_idle c Hg He) as Hidle.
  destruct (truthy (trim (Qna.inputValue c))) eqn:Hq.
  - destruct (sendMessage_start_effects c Hq) as (_ & Hi & Hs & Hp).
    split; [congruence|]. right. split; [|assumption].
    rewrite Hp, Hidle. now eexists.
  - unfold Qna.sendMessage_start. now rewrite Hq.
Qed.

Lemma guarded_step (c : Qna.Chat) (e : Qna.Event) :
  guarded c -> guarded (Qna.step c e).
Proof.
  intros Hg. pose proof Hg as [Hsame Hp]. destruct e as [| |text|reply];
    cbn [Qna.step].
  - destruct (Qna.sendDisabled c) eqn:Hd; [assumption|].
    apply guarded_sendMessage_start; congruence.
  - destruct (Qna.inputDisabled c) eqn:Hd; [assumption|].
    now apply guarded_sendMessage_start.
  - destruct (Qna.inputDisabled c) eqn:Hd; [assumption|].
    split; cbn; [congruence|]. left.
    now apply guarded_enabled_idle.
  - destruct (Qna.pending c) as [|q rest] eqn:Eq; [assumption|].
    destruct (sendMessage_resume_effects (Qna.setPending c rest) reply)
      as (Hi & Hs & Hpend & _).
    split; [congruence|].
    destruct Hp as [Hp | [[q' Hq'] _]]; [discriminate|].
    inversion Hq'; subst. left. rewrite Hpend. reflexivity.
Qed.

Lemma guarded_run (events : list Qna.Event) : forall c,
  guarded c -> guarded (Qna.run events c).
Proof.
  unfold Qna.run. induction events as [|e events IH]; intros c Hg; cbn.
  - assumption.
  - apply IH. now apply guarded_step.
Qed.

(** C8: [sendMessage] on a question that is not empty disables the input
    element and the send button before it issues the request to
    [/ask_question]; when the reply comes, on success and on failure alike,
    it shows the answer or the error and enables both controls as its last
    step, and nothing before that step enables them; and in every state the
    widget reaches from its start, a question that waits for its reply means
    both controls are disabled, a click and the Enter key do nothing, and no
    second question is waiting. *)
Theorem controls_disabled_while_pending :
  (forall c,
     truthy (trim (Qna.inputValue c)) = true ->
     Qna.trace (Qna.sendMessage_start c)
     = Qna.trace c
       ++ [ Qna.AppendMessage {| Qna.sender := lit "You";
                                 Qna.content := Some (trim (Qna.inputValue c));
                                 Qna.type := Qna.user |};
            Qna.ClearInput; Qna.ShowTyping; Qna.DisableInput;
            Qna.AskQuestion (trim (Qna.inputValue c)) ]
     /\ Qna.inputDisabled (Qna.sendMessage_start c) = true
     /\ Qna.sendDisabled (Qna.sendMessage_start c) = true
     /\ Qna.pending (Qna.sendMessage_start c)
        = Qna.pending c ++ [trim (Qna.inputValue c)])
  /\ (forall c reply,
        Qna.inputDisabled (Qna.sendMessage_resume c reply) = false
        /\ Qna.sendDisabled (Qna.sendMessage_resume c reply) = false
        /\ Qna.pending (Qna.sendMessage_resume c reply) = Qna.pending c
        /\ exists es m,
             Qna.trace (Qna.sendMessage_resume c reply)
             = Qna.trace c ++ es ++ [Qna.EnableInput]
             /\ In (Qna.AppendMessage m) es
             /\ Forall (fun e => e <> Qna.EnableInput
                                 /\ e <> Qna.DisableInput) es)
  /\ (forall events,
        length (Qna.pending (Qna.run events Qna.initial)) <= 1
        /\ (Qna.pending (Qna.run events Qna.initial) <> [] ->
            Qna.inputDisabled (Qna.run events Qna.initial) = true
            /\ Qna.sendDisabled (Qna.run events Qna.initial) = true
            /\ Qna.step (Qna.run events Qna.initial) Qna.Click
               = Qna.run events Qna.initial
            /\ Qna.step (Qna.run events Qna.initial) Qna.EnterKey
               = Qna.run events Qna.initial)).
Proof.
  split; [exact sendMessage_start_effects|].
  split; [exact sendMessage_resume_effects|].
  intros events.
  destruct (guarded_run events Qna.initial guarded_initial) as [Hsame Hp].
  destruct Hp as [Hp | [[q Hq] Hd]].
  - rewrite Hp. split; [cbn; lia | congruence].
  - rewrite Hq. split; [cbn; lia|]. intros _.
    assert (Hs : Qna.sendDisabled (Qna.run events Qna.initial) = true)
      by congruence.
    cbn [Qna.step]. rewrite Hd, Hs. repeat split.
Qed.

(** A question is sent, a click and the Enter key meet disabled controls,
    the reply fails, and the controls are enabled again. *)
Example second_question_is_refused :
  Qna.pending (Qna.run [Qna.Edit (lit "Why?"); Qna.Click; Qna.Edit (lit "And?");
                        Qna.Click; Qna.EnterKey] Qna.initial)
  = [lit "Why?"]
  /\ Qna.inputDisabled
       (Qna.run [Qna.Edit (lit "Why?"); Qna.Click; Qna.Edit (lit "And?");
                 Qna.Click; Qna.EnterKey; Qna.ReplyArrives Qna.Rejected]
          Qna.initial)
     = false.
Proof. split; reflexivity. Qed.

(* ------------------------------------------------------------------ *)
(** ** Further properties of the parser *)

(** Every way the callback can end, with the state it leaves. *)
Ltac line_cases H :=
  unfold Notes.processLine, pushContent in H; cbv zeta in H;
  cbn [sections currentSection currentSubsection inKeyPoints keyPoints] in H;
  repeat first
    [ progress cbn [bind] in H
    | match type of H with
      | context [if ?b then _ else _] => destruct b eqn:?
      | context [bind ?x _] => destruct x eqn:?
      | context [match ?x with Some _ => _ | None => _ end] =>
          destruct x eqn:?
      end ];
  try discriminate H; inversion H; subst; clear H.

Section ParserFacts.

Variable toLowerCase : jsstring -> jsstring.

Local Abbreviation processLine := (Notes.processLine toLowerCase).
Local Abbreviation postPass := (Notes.postPass toLowerCase).
Local Abbreviation parseStructuredNotes := (Notes.parseStructuredNotes toLowerCase).

Lemma processLine_titles st l st' :
  processLine st l = Some st' ->
  map title (pushSection st')
  = map title (pushSection st)
    ++ (if isSectionHeading l then [sectionTitle l] else []).
Proof.
  intros H. unfold isSectionHeading, sectionTitle, pushSection.
  line_cases H; cbn; repeat match goal with E : _ = _ |- _ => rewrite E end;
    cbn; rewrite ?map_app, ?app_nil_r; reflexivity.
Qed.

Lemma forEach_titles lines : forall st st',
  forEach processLine lines st = Some st' ->
  map title (pushSection st')
  = map title (pushSection st)
    ++ map sectionTitle (filter isSectionHeading lines).
Proof.
  induction lines as [|l lines IH]; intros st st' H; cbn [forEach] in H.
  - inversion H; subst. cbn. now rewrite app_nil_r.
  - destruct (processLine st l) as [st1|] eqn:E1; [|discriminate].
    cbn [bind] in H. rewrite (IH _ _ H), (processLine_titles _ _ _ E1).
    cbn [filter]. destruct (isSectionHeading l); cbn [map];
      now rewrite <- app_assoc.
Qed.

(** X1: the line pass makes one section for each section heading line, in
    the order of the lines, titled with what follows the heading mark; when
    no key point was accumulated these are the sections of the result. *)
Theorem sections_follow_headings (notes : jsstring) :
  exists st,
    forEach processLine (linesOf notes) initial = Some st
    /\ map title (pushSection st)
       = map sectionTitle (filter isSectionHeading (linesOf notes))
    /\ (keyPoints st = [] ->
        filter isSectionHeading (linesOf notes) <> [] ->
        exists secs,
          parseStructuredNotes notes = Some secs
          /\ map title secs
             = map sectionTitle (filter isSectionHeading (linesOf notes))).
Proof.
  destruct (linePass_total toLowerCase notes) as [st [E _]].
  exists st. split; [assumption|].
  pose proof (forEach_titles _ _ _ E) as Ht. cbn [app map] in Ht.
  split; [assumption|].
  intros Hk Hne. unfold Notes.parseStructuredNotes, Notes.postPass.
  rewrite E. cbn [bind]. rewrite Hk. cbn [length Nat.ltb Nat.leb andb].
  destruct (pushSection st) as [|s0 secs] eqn:Es.
  - cbn in Ht. destruct (filter isSectionHeading (linesOf notes));
      [congruence | discriminate].
  - cbn [length Nat.ltb Nat.leb]. eexists; split; [reflexivity | exact Ht].
Qed.

Lemma processLine_trim st l l' :
  trim l = trim l' -> processLine st l = processLine st l'.
Proof. intros H. unfold Notes.processLine. now rewrite H. Qed.

Lemma forEach_trim ls : forall ls' st,
  map trim ls = map trim ls' ->
  forEach processLine ls st = forEach processLine ls' st.
Proof.
  induction ls as [|l ls IH]; intros [|l' ls'] st H; cbn [map] in H;
    try discriminate; [reflexivity|].
  inversion H as [[Hl Hls]]. cbn [forEach].
  rewrite (processLine_trim st l l' Hl).
  destruct (processLine st l'); cbn [bind]; auto.
Qed.

(** X2: two inputs whose lines, blank ones dropped, are equal once trimmed
    put the line pass in the same state; they parse to the same sections
    when that state holds a section, and each to its own fallback
    otherwise. *)
Theorem parse_depends_on_trimmed_lines (a b : jsstring) :
  map trim (linesOf a) = map trim (linesOf b) ->
  exists st,
    forEach processLine (linesOf a) initial = Some st
    /\ forEach processLine (linesOf b) initial = Some st
    /\ (postPass st <> [] ->
        parseStructuredNotes a = Some (postPass st)
        /\ parseStructuredNotes b = Some (postPass st))
    /\ (postPass st = [] ->
        parseStructuredNotes a = Some (createFallbackStructure a)
        /\ parseStructuredNotes b = Some (createFallbackStructure b)).
Proof.
  intros H. destruct (linePass_total toLowerCase a) as [st [Ea _]].
  pose proof Ea as Eb. rewrite (forEach_trim _ _ _ H) in Eb.
  exists st. split; [assumption|]. split; [assumption|].
  unfold Notes.parseStructuredNotes. rewrite Ea, Eb. cbn [bind].
  split; intros Hp.
  - destruct (postPass st); [congruence|]. now split.
  - rewrite Hp. now split.
Qed.

(** *** White space at the ends of a line *)

Lemma dropWhile_head p s c r : dropWhile p s = c :: r -> p c = false.
Proof.
  induction s as [|x s IH]; cbn [dropWhile]; [discriminate|].
  destruct (p x) eqn:Ex; [assumption|].
  intros H; inversion H; subst; assumption.
Qed.

Lemma dropWhile_idem p s : dropWhile p (dropWhile p s) = dropWhile p s.
Proof.
  destruct (dropWhile p s) as [|c r] eqn:E; [reflexivity|].
  cbn [dropWhile]. now rewrite (dropWhile_head _ _ _ _ E).
Qed.

Lemma dropWhile_suffix p s : exists w, s = w ++ dropWhile p s.
Proof.
  induction s as [|x s [w IH]]; cbn [dropWhile]; [now exists []|].
  destruct (p x).
  - exists (x :: w). cbn. now rewrite <- IH.
  - now exists [].
Qed.

Lemma endsClean_trim l : endsClean (trim l).
Proof.
  unfold endsClean, trim, trimEnd. rewrite rev_involutive.
  destruct (dropWhile isWhiteSpace (rev (trimStart l))) as [|c r] eqn:E;
    [exact I | exact (dropWhile_head _ _ _ _ E)].
Qed.

Lemma trimEnd_prefix s : exists w, s = trimEnd s ++ w.
Proof.
  unfold trimEnd. destruct (dropWhile_suffix isWhiteSpace (rev s)) as [w Hw].
  exists (rev w). rewrite <- rev_app_distr, <- Hw. now rewrite rev_involutive.
Qed.

Lemma trim_idempotent s : trim (trim s) = trim s.
Proof.
  assert (Hstart : trimStart (trim s) = trim s).
  { unfold trim. destruct (trimEnd_prefix (trimStart s)) as [w Hw].
    destruct (trimEnd (trimStart s)) as [|c t] eqn:Et; [reflexivity|].
    unfold trimStart in Hw |- *. cbn [app] in Hw.
    cbn [dropWhile]. now rewrite (dropWhile_head _ _ _ _ Hw). }
  unfold trim at 1. rewrite Hstart.
  unfold trim, trimEnd. rewrite rev_involutive. now rewrite dropWhile_idem.
Qed.

(** *** What is left after a heading, bullet or numeral mark *)

Lemma exec_One cls re c s :
  exec (One cls :: re) (c :: s) = if cls c then exec re s else None.
Proof. reflexivity. Qed.

Lemma exec_Plus cls re c s :
  exec (Plus cls :: re) (c :: s)
  = if cls c then
      match exec (Plus cls :: re) s with
      | Some r => Some r
      | None => exec re s
      end
    else None.
Proof. reflexivity. Qed.

Lemma exec_empty a re : exec (a :: re) [] = None.
Proof. now destruct a. Qed.

(** A pattern that ends with [\s+] stops right after a white space. *)
Lemma exec_ends_after_space re : forall s r,
  exec (re ++ [Plus isWhiteSpace]) s = Some r ->
  exists p c, s = p ++ c :: r /\ isWhiteSpace c = true.
Proof.
  induction re as [|[cls|cls] re IH]; cbn [app].
  - induction s as [|c s IHs]; intros r H; [discriminate|].
    rewrite exec_Plus in H. destruct (isWhiteSpace c) eqn:Ec; [|discriminate].
    destruct (exec [Plus isWhiteSpace] s) as [r'|] eqn:E.
    + inversion H; subst. destruct (IHs _ eq_refl) as (p & c' & -> & Hc').
      now exists (c :: p), c'.
    + cbn in H. inversion H; subst. now exists [], c.
  - intros [|c s] r H; [discriminate|]. rewrite exec_One in H.
    destruct (cls c); [|discriminate].
    destruct (IH _ _ H) as (p & c' & -> & Hc'). now exists (c :: p), c'.
  - induction s as [|c s IHs]; intros r H; [discriminate|].
    rewrite exec_Plus in H. destruct (cls c); [|discriminate].
    destruct (exec (Plus cls :: re ++ [Plus isWhiteSpace]) s) as [r'|] eqn:E.
    + inversion H; subst. destruct (IHs _ eq_refl) as (p & c' & -> & Hc').
      now exists (c :: p), c'.
    + destruct (IH _ _ H) as (p & c' & -> & Hc'). now exists (c :: p), c'.
Qed.

Lemma strip_mark_nonempty re s :
  endsClean s -> s <> [] -> strip (re ++ [Plus isWhiteSpace]) s <> [].
Proof.
  intros Hclean Hs. unfold strip.
  destruct (exec (re ++ [Plus isWhiteSpace]) s) as [r|] eqn:E; [|assumption].
  destruct (exec_ends_after_space _ _ _ E) as (p & c & -> & Hc).
  intros ->. unfold endsClean in Hclean.
  rewrite rev_app_distr in Hclean. cbn in Hclean. congruence.
Qed.

Lemma matches_nonempty a re s : matches (a :: re) s = true -> s <> [].
Proof.
  intros H ->. unfold matches in H. now rewrite exec_empty in H.
Qed.

Lemma sectionTitle_nonempty l :
  isSectionHeading l = true -> sectionTitle l <> [].
Proof.
  intros H. apply (strip_mark_nonempty [One (isChar "#")]).
  - apply endsClean_trim.
  - exact (matches_nonempty _ _ _ H).
Qed.

Lemma subsectionTitle_nonempty line :
  endsClean line -> matches re_subsection line = true ->
  strip re_subsection_mark line <> [].
Proof.
  intros Hc H.
  apply (strip_mark_nonempty [One (isChar "#"); One (isChar "#")]);
    [assumption | exact (matches_nonempty _ _ _ H)].
Qed.

Lemma numberedItem_nonempty line :
  endsClean line -> matches re_numbered line = true ->
  strip re_numbered_mark line <> [].
Proof.
  intros Hc H.
  apply (strip_mark_nonempty [Plus isDigit; One (isChar ".")]);
    [assumption | exact (matches_nonempty _ _ _ H)].
Qed.

Lemma bullet_nonempty line :
  endsClean line -> matches re_bullet line = true ->
  strip re_bullet_mark line <> [].
Proof.
  intros Hc H.
  apply (strip_mark_nonempty [One (isChar "-")]);
    [assumption | exact (matches_nonempty _ _ _ H)].
Qed.

(** *** No empty string in the tree *)

Lemma Forall_snoc {A} (P : A -> Prop) l x :
  Forall P l -> P x -> Forall P (l ++ [x]).
Proof.
  intros Hl Hx. apply Forall_app; split; [assumption | now constructor].
Qed.

Lemma Forall_nth_error {A} (P : A -> Prop) l i x :
  Forall P l -> nth_error l i = Some x -> P x.
Proof.
  intros Hl Hi. rewrite Forall_forall in Hl. eapply Hl, nth_error_In, Hi.
Qed.

Lemma Forall_updateAt {A} (P : A -> Prop) l : forall i x,
  Forall P l -> P x -> Forall P (updateAt i x l).
Proof.
  induction l as [|y l IH]; intros [|i] x Hl Hx; cbn [updateAt];
    inversion Hl; subst; constructor; auto.
Qed.

Lemma cleanSection_withSubsections s subs :
  cleanSection s -> Forall cleanSubsection subs ->
  cleanSection (withSubsections s subs).
Proof. intros (Ht & Hc & Hp & _) Hs. repeat split; assumption. Qed.

Lemma cleanSection_withContent s c :
  cleanSection s -> Forall (fun x => x <> []) c ->
  cleanSection (withContent s c).
Proof. intros (Ht & _ & Hp & Hs) Hc. repeat split; assumption. Qed.

Lemma cleanSection_subsections s subs :
  cleanSection s -> subsections s = Some subs -> Forall cleanSubsection subs.
Proof. intros (_ & _ & _ & Hs) E. now rewrite E in Hs. Qed.

Lemma cleanSection_content s c :
  cleanSection s -> content s = Some c -> Forall (fun x => x <> []) c.
Proof. intros (_ & Hc & _) E. now rewrite E in Hc. Qed.

Lemma cleanSubsection_points sub ps :
  cleanSubsection sub -> sub_points sub = Some ps ->
  Forall (fun x => x <> []) ps.
Proof. intros [_ Hp] E. now rewrite E in Hp. Qed.

Lemma long_nonempty (s : jsstring) : (5 <? length s) = true -> s <> [].
Proof. intros H ->. discriminate H. Qed.

(** What the hypotheses say of the parts of a section. *)
Ltac saturate_clean :=
  repeat match goal with
  | H : _ && _ = true |- _ => apply andb_true_iff in H; destruct H
  | H : Forall cleanSection (_ ++ [_]) |- _ =>
      apply Forall_app in H; destruct H as [? H];
      inversion H as [|? ? ? _]; subst; clear H
  | Hs : cleanSection ?s, E : subsections ?s = Some ?l |- _ =>
      lazymatch goal with
      | _ : Forall cleanSubsection l |- _ => fail
      | _ => pose proof (cleanSection_subsections _ _ Hs E)
      end
  | Hs : cleanSection ?s, E : content ?s = Some ?l |- _ =>
      lazymatch goal with
      | _ : Forall (fun x => x <> []) l |- _ => fail
      | _ => pose proof (cleanSection_content _ _ Hs E)
      end
  | Hl : Forall cleanSubsection ?l, E : nth_error ?l _ = Some ?x |- _ =>
      lazymatch goal with
      | _ : cleanSubsection x |- _ => fail
      | _ => pose proof (Forall_nth_error _ _ _ _ Hl E)
      end
  | Hs : cleanSubsection ?x, E : sub_points ?x = Some ?l |- _ =>
      lazymatch goal with
      | _ : Forall (fun x => x <> []) l |- _ => fail
      | _ => pose proof (cleanSubsection_points _ _ Hs E)
      end
  end.

Ltac clean_goal :=
  repeat match goal with
  | |- _ /\ _ => split
  | |- Forall _ [] => constructor
  | |- Forall _ (_ ++ [_]) => apply Forall_snoc
  | |- Forall _ (updateAt _ _ _) => apply Forall_updateAt
  | |- cleanSection (withSubsections _ _) =>
      apply cleanSection_withSubsections
  | |- cleanSection (withContent _ _) => apply cleanSection_withContent
  | |- cleanSection (Build_Section _ _ _ _) =>
      unfold cleanSection; cbn [orEmpty title content points subsections]
  | |- cleanSubsection (Build_Subsection _ _) =>
      unfold cleanSubsection; cbn [orEmpty sub_title sub_points]
  | |- Forall _ [_] => constructor
  | H : cleanSubsection ?x |- sub_title ?x <> [] => exact (proj1 H)
  | |- _ => assumption
  | |- strip re_section_mark _ <> [] => now apply sectionTitle_nonempty
  | |- strip re_subsection_mark _ <> [] => now apply subsectionTitle_nonempty
  | |- strip re_numbered_mark _ <> [] => now apply numberedItem_nonempty
  | |- strip re_bullet_mark _ <> [] => now apply bullet_nonempty
  | |- trim _ <> [] => now apply long_nonempty
  end.

Lemma processLine_clean st l st' :
  cleanState st -> processLine st l = Some st' -> cleanState st'.
Proof.
  intros [Hsecs Hkp] H. pose proof (endsClean_trim l) as Hc.
  destruct st as [secs cur sub ikp kps].
  unfold cleanState, pushSection in *.
  cbn [sections currentSection currentSubsection inKeyPoints keyPoints] in *.
  line_cases H;
    cbn [pushSection withCurrentSection sections currentSection
         currentSubsection inKeyPoints keyPoints];
    saturate_clean; clean_goal.
Qed.

Lemma forEach_clean lines : forall st st',
  cleanState st -> forEach processLine lines st = Some st' -> cleanState st'.
Proof.
  induction lines as [|l lines IH]; intros st st' Hc H; cbn [forEach] in H.
  - now inversion H; subst.
  - destruct (processLine st l) as [st1|] eqn:E1; [|discriminate].
    cbn [bind] in H. eauto using processLine_clean.
Qed.

Lemma postPass_clean st : cleanState st -> Forall cleanSection (postPass st).
Proof.
  intros [Hsecs Hkp]. unfold Notes.postPass.
  assert (Hk : cleanSection (keyPointsSection (keyPoints st))).
  { repeat split; cbn; [discriminate | constructor | assumption
                        | constructor]. }
  destruct ((0 <? length (keyPoints st)) && (0 <? length (pushSection st)));
    [|assumption].
  destruct (findIndex (Notes.isOverview toLowerCase) (pushSection st));
    now apply splice_Forall.
Qed.

(** X3: on an input that is not empty, no section of the result has an
    empty title, an empty paragraph or an empty point, and no subsection has
    an empty title or an empty point. *)
Theorem parse_stores_no_empty_string (notes : jsstring) :
  notes <> [] ->
  exists secs,
    parseStructuredNotes notes = Some secs /\ Forall cleanSection secs.
Proof.
  intros Hn. destruct (linePass_total toLowerCase notes) as [st [E _]].
  assert (Hi : cleanState initial) by (split; constructor).
  pose proof (forEach_clean _ _ _ Hi E) as Hc.
  unfold Notes.parseStructuredNotes. rewrite E. cbn [bind].
  eexists; split; [reflexivity|].
  destruct (0 <? length (postPass st)).
  - now apply postPass_clean.
  - constructor; [|constructor].
    repeat split; cbn; [discriminate | now repeat constructor
                        | constructor | constructor].
Qed.

(** *** The two shapes of a section *)

Lemma processLine_plain st l st' :
  plainState st -> processLine st l = Some st' -> plainState st'.
Proof.
  intros Hsecs H. destruct st as [secs cur sub ikp kps].
  unfold plainState, pushSection in *.
  cbn [sections currentSection currentSubsection inKeyPoints keyPoints] in *.
  line_cases H;
    cbn [pushSection withCurrentSection sections currentSection
         currentSubsection inKeyPoints keyPoints];
    try assumption;
    try (apply Forall_app in Hsecs; destruct Hsecs as [Hs Hcs];
         inversion Hcs as [|? ? [[c Hc] Hp] _]; subst);
    apply Forall_snoc; try assumption;
    split; cbn; eauto.
Qed.

Lemma forEach_plain lines : forall st st',
  plainState st -> forEach processLine lines st = Some st' -> plainState st'.
Proof.
  induction lines as [|l lines IH]; intros st st' Hc H; cbn [forEach] in H.
  - now inversion H; subst.
  - destruct (processLine st l) as [st1|] eqn:E1; [|discriminate].
    cbn [bind] in H. eauto using processLine_plain.
Qed.

(** X4: every section of the result has paragraphs and no points, except at
    most one, the synthesized section, which is titled "Key Points", has no
    paragraphs and has at least one point. *)
Theorem parse_output_shapes (notes : jsstring) :
  exists secs,
    parseStructuredNotes notes = Some secs
    /\ (Forall plainSection secs
        \/ exists pre k post,
             secs = pre ++ k :: post /\ synthesizedSection k
             /\ Forall plainSection (pre ++ post)).
Proof.
  destruct (linePass_total toLowerCase notes) as [st [E _]].
  assert (Hi : plainState initial) by constructor.
  pose proof (forEach_plain _ _ _ Hi E) as Hp.
  unfold plainState in Hp.
  unfold Notes.parseStructuredNotes, Notes.postPass. rewrite E. cbn [bind].
  eexists; split; [reflexivity|].
  destruct (pushSection st) as [|s0 secs] eqn:Es.
  - cbn [length]. rewrite andb_false_r. cbn [length Nat.ltb Nat.leb]. left.
    constructor; [|constructor]. split; cbn; eauto.
  - destruct (keyPoints st) as [|k ks] eqn:Ek.
    + now left.
    + right.
      change ((0 <? length (k :: ks)) && (0 <? length (s0 :: secs)))
        with true. cbv iota.
      assert (Hsyn : synthesizedSection (keyPointsSection (k :: ks))).
      { split; [reflexivity|]. split; [reflexivity|].
        exists (k :: ks). split; [reflexivity | discriminate]. }
      destruct (findIndex (Notes.isOverview toLowerCase) (s0 :: secs))
        as [i|]; rewrite splice_nonempty; unfold splice;
        eexists _, _, _; (split; [reflexivity|]); (split; [exact Hsyn|]);
        now rewrite firstn_skipn.
Qed.

(** *** Icons *)

Lemma nth_error_mod_5 (icons : list jsstring) index :
  length icons = 5 ->
  exists icon,
    nth_error icons (index mod 5) = Some icon /\ In icon icons.
Proof.
  intros Hlen.
  destruct (nth_error icons (index mod 5)) as [icon|] eqn:E.
  - exists icon. split; [reflexivity|]. eapply nth_error_In, E.
  - apply nth_error_None in E.
    pose proof (Nat.mod_upper_bound index 5). lia.
Qed.

(** X7: the two icon lookups never give [undefined]: a section gets one of
    the six keyword icons or one of the five of the cycle, a subsection one
    of its five, and the subsection icons repeat every five positions. *)
Theorem icons_are_defined (index : nat) (t : jsstring) :
  (exists icon,
     getSectionIcon toLowerCase index t = Some icon
     /\ In icon ([lit "file-alt"; lit "tags"; lit "key"; lit "info-circle";
                  lit "lightbulb"; lit "rocket"] ++ sectionIcons))
  /\ (exists icon,
        getSubsectionIcon index = Some icon /\ In icon subsectionIcons)
  /\ getSubsectionIcon (index + 5) = getSubsectionIcon index.
Proof.
  split; [|split].
  - unfold getSectionIcon.
    repeat match goal with
    | |- context [if ?b then _ else _] =>
        destruct b; [eexists; split; [reflexivity | cbn; tauto] |]
    end.
    destruct (nth_error_mod_5 sectionIcons index eq_refl) as [icon [E Hin]].
    exists icon. split; [exact E|]. apply in_or_app. now right.
  - exact (nth_error_mod_5 subsectionIcons index eq_refl).
  - unfold getSubsectionIcon. change (length subsectionIcons) with 5.
    replace (index + 5) with (index + 1 * 5) by lia.
    now rewrite Nat.Div0.mod_add.
Qed.

(** *** What comes before the first section *)

Lemma processLine_preamble l :
  isSectionHeading l = false -> isSubsectionHeading l = false ->
  processLine initial l = Some initial.
Proof.
  unfold isSectionHeading, isSubsectionHeading. intros H1 H2.
  unfold Notes.processLine. rewrite H1, H2. cbn.
  rewrite andb_false_r.
  destruct (matches re_bullet (trim l)); [reflexivity|].
  match goal with |- (if ?b then _ else _) = _ => now destruct b end.
Qed.

Lemma forEach_preamble pre : forall rest,
  Forall (fun l => isSectionHeading l = false
                   /\ isSubsectionHeading l = false) pre ->
  forEach processLine (pre ++ rest) initial
  = forEach processLine rest initial.
Proof.
  induction pre as [|l pre IH]; intros rest H; [reflexivity|].
  inversion H as [|? ? [H1 H2] Hrest]; subst. cbn [app forEach].
  rewrite (processLine_preamble l H1 H2). cbn [bind]. now apply IH.
Qed.

(** X13: lines before the first heading leave no trace: when the lines of
    an input are lines without a heading followed by the lines of a second
    input, the line pass ends in the same state on both, and both parse to
    the same sections when that state holds a section. *)
Theorem preamble_is_ignored (notes rest : jsstring) (pre : list jsstring) :
  linesOf notes = pre ++ linesOf rest ->
  Forall (fun l => isSectionHeading l = false
                   /\ isSubsectionHeading l = false) pre ->
  exists st,
    forEach processLine (linesOf notes) initial = Some st
    /\ forEach processLine (linesOf rest) initial = Some st
    /\ (postPass st <> [] ->
        parseStructuredNotes notes = parseStructuredNotes rest).
Proof.
  intros Hl Hpre. destruct (linePass_total toLowerCase rest) as [st [E _]].
  assert (E' : forEach processLine (linesOf notes) initial = Some st).
  { rewrite Hl, forEach_preamble by assumption. exact E. }
  exists st. split; [assumption|]. split; [assumption|].
  intros Hp. unfold Notes.parseStructuredNotes. rewrite E, E'. cbn [bind].
  destruct (postPass st); [congruence | reflexivity].
Qed.

(** *** Where the key points come from *)

Lemma processLine_points_source st l st' :
  processLine st l = Some st' ->
  keyPoints st' = []
  \/ keyPoints st' = keyPoints st
  \/ (isNumberedLine l = true
      /\ keyPoints st' = keyPoints st ++ [numberedItem l]).
Proof.
  intros H. unfold isNumberedLine, numberedItem.
  destruct st as [secs cur sub ikp kps].
  line_cases H; cbn [keyPoints]; auto.
  right; right. split; [|reflexivity].
  match goal with
  | E : _ && _ = true |- _ => apply andb_true_iff in E; now destruct E
  end.
Qed.

Lemma forEach_points_source lines : forall st st',
  forEach processLine lines st = Some st' ->
  Forall (fun k => In k (keyPoints st)
                   \/ exists l, In l lines /\ isNumberedLine l = true
                                /\ k = numberedItem l)
         (keyPoints st').
Proof.
  induction lines as [|l lines IH]; intros st st' H; cbn [forEach] in H.
  - inversion H; subst. apply Forall_forall. now left.
  - destruct (processLine st l) as [st1|] eqn:E1; [|discriminate].
    cbn [bind] in H. specialize (IH _ _ H).
    apply Forall_forall. intros k Hk. rewrite Forall_forall in IH.
    destruct (IH k Hk) as [Hin | (l' & Hl' & Hn & Ek)].
    + destruct (processLine_points_source _ _ _ E1) as [E | [E | [Hn E]]];
        rewrite E in Hin.
      * destruct Hin.
      * now left.
      * apply in_app_or in Hin. destruct Hin as [Hin | [Hin | []]];
          [now left|]. right. exists l. subst k. split; [now left | now split].
    + right. exists l'. split; [now right | now split].
Qed.

(** X14: the parser invents no point: every point of a section of the
    result is the text that follows the numeral of some numbered line of the
    input. *)
Theorem points_come_from_numbered_lines (notes : jsstring) :
  exists secs,
    parseStructuredNotes notes = Some secs
    /\ forall s ps k,
         In s secs -> points s = Some ps -> In k ps ->
         exists l,
           In l (linesOf notes) /\ isNumberedLine l = true
           /\ k = numberedItem l.
Proof.
  destruct (linePass_total toLowerCase notes) as [st [E _]].
  assert (Hi : plainState initial) by constructor.
  pose proof (forEach_plain _ _ _ Hi E) as Hp. unfold plainState in Hp.
  pose proof (forEach_points_source _ _ _ E) as Hk.
  assert (Hplain : forall s ps,
            In s (pushSection st) -> points s = Some ps -> False).
  { intros s ps Hin Hps. rewrite Forall_forall in Hp.
    destruct (Hp s Hin) as [_ Hnone]. congruence. }
  assert (Hsyn : forall n s ps k,
            In s (splice n (keyPointsSection (keyPoints st)) (pushSection st)) ->
            points s = Some ps -> In k ps ->
            exists l, In l (linesOf notes) /\ isNumberedLine l = true
                      /\ k = numberedItem l).
  { intros n s ps k Hin Hps Hkin. unfold splice in Hin.
    apply in_app_or in Hin. destruct Hin as [Hin | [Hin | Hin]].
    - exfalso. apply (Hplain s ps); [|assumption].
      rewrite <- (firstn_skipn n (pushSection st)).
      apply in_or_app. now left.
    - subst s. cbn in Hps. inversion Hps; subst ps.
      rewrite Forall_forall in Hk.
      destruct (Hk k Hkin) as [[] | H]. exact H.
    - exfalso. apply (Hplain s ps); [|assumption].
      rewrite <- (firstn_skipn n (pushSection st)).
      apply in_or_app. now right. }
  unfold Notes.parseStructuredNotes, Notes.postPass. rewrite E. cbn [bind].
  eexists; split; [reflexivity|]. intros s ps k Hin Hps Hkin.
  destruct ((0 <? length (keyPoints st)) && (0 <? length (pushSection st))).
  - destruct (findIndex (Notes.isOverview toLowerCase) (pushSection st));
      rewrite splice_nonempty in Hin; eauto.
  - destruct (0 <? length (pushSection st)).
    + exfalso. eauto.
    + destruct Hin as [Hin | []]. subst s. discriminate Hps.
Qed.

End ParserFacts.

(** *** When the export faults *)

Lemma formatSection_faults out s k :
  subsections s = None -> formatSection out s k = None.
Proof. intros E. unfold formatSection. now rewrite E. Qed.

Lemma forEachI_formatSection_faults secs :
  Exists (fun s => subsections s = None) secs ->
  forall i out, forEachI formatSection secs i out = None.
Proof.
  induction 1 as [s secs Hs | s secs _ IH]; intros i out; cbn [forEachI].
  - now rewrite formatSection_faults.
  - destruct (formatSection out s i); cbn [bind]; auto.
Qed.

Lemma subsections_present_or_missing secs :
  Forall hasSubsections secs \/ Exists (fun s => subsections s = None) secs.
Proof.
  induction secs as [|s secs [IH|IH]].
  - left. constructor.
  - destruct (subsections s) as [subs|] eqn:E.
    + left. constructor; [now exists subs | assumption].
    + right. now constructor.
  - right. now constructor 2.
Qed.

(** X5: [formatNotesForDownload] throws exactly when one of the sections
    has no [subsections] array; a missing [content] or [points], in a section
    or in a subsection, never makes it throw. *)
Theorem formatNotesForDownload_faults_iff (secs : list Section) :
  formatNotesForDownload secs = None
  <-> Exists (fun s => subsections s = None) secs.
Proof.
  split.
  - intros H. destruct (subsections_present_or_missing secs) as [Hall|Hex];
      [|assumption].
    rewrite (format_is_layout secs Hall) in H. discriminate.
  - intros H. now apply forEachI_formatSection_faults.
Qed.

(** *** The statistics *)

Lemma subsection_total subs : forall total,
  fold_left
    (fun totalPoints subsection =>
       match sub_points subsection with
       | Some ps => totalPoints + length ps
       | None => totalPoints
       end)
    subs total
  = total + pointsOfSubsections subs.
Proof.
  unfold pointsOfSubsections.
  induction subs as [|sub subs IH]; intros total; cbn [fold_left map].
  - cbn. lia.
  - rewrite IH. change (list_sum (?x :: ?l)) with (x + list_sum l).
    destruct (sub_points sub); cbn [orEmpty length]; lia.
Qed.

Lemma section_total secs : forall total,
  fold_left
    (fun totalPoints section =>
       let totalPoints :=
         match points section with
         | Some ps => totalPoints + length ps
         | None => totalPoints
         end in
       match subsections section with
       | Some subs =>
           fold_left
             (fun totalPoints subsection =>
                match sub_points subsection with
                | Some ps => totalPoints + length ps
                | None => totalPoints
                end)
             subs totalPoints
       | None => totalPoints
       end)
    secs total
  = total + list_sum (map pointsOfSection secs).
Proof.
  induction secs as [|s secs IH]; intros total; cbn [fold_left map].
  - cbn. lia.
  - rewrite IH. change (list_sum (?x :: ?l)) with (x + list_sum l).
    unfold pointsOfSection at 2.
    destruct (subsections s) as [subs|]; cbn [orEmpty].
    + rewrite subsection_total.
      destruct (points s); cbn [orEmpty length]; lia.
    + change (pointsOfSubsections []) with 0.
      destruct (points s); cbn [orEmpty length]; lia.
Qed.

(** X6: the section count that [updateDetailedStats] shows is the number of
    sections, and the point total is the sum, over the sections, of the
    number of their own points and of the points of their subsections; so
    the synthesized section raises the count by one and the total by the
    number of accumulated key points, wherever it is spliced in. *)
Theorem updateDetailedStats_totals
  (secs : list Section) (n : nat) (kps : list jsstring) :
  updateDetailedStats secs
  = (length secs, list_sum (map pointsOfSection secs))
  /\ updateDetailedStats (splice n (keyPointsSection kps) secs)
     = (S (length secs), snd (updateDetailedStats secs) + length kps).
Proof.
  assert (H : forall l, updateDetailedStats l
                        = (length l, list_sum (map pointsOfSection l))).
  { intros l. unfold updateDetailedStats. f_equal. apply section_total. }
  split; [apply H|]. rewrite !H. cbn [snd]. unfold splice.
  assert (Hlen : length secs
                 = length (firstn n secs) + length (skipn n secs)).
  { rewrite <- (firstn_skipn n secs) at 1. apply length_app. }
  assert (Hsum : list_sum (map pointsOfSection secs)
                 = list_sum (map pointsOfSection (firstn n secs))
                   + list_sum (map pointsOfSection (skipn n secs))).
  { rewrite <- (firstn_skipn n secs) at 1.
    now rewrite map_app, list_sum_app. }
  rewrite length_app, map_app, list_sum_app, Hlen, Hsum. cbn [length map].
  change (list_sum (?x :: ?l)) with (x + list_sum l).
  change (pointsOfSection (keyPointsSection kps)) with (length kps + 0).
  f_equal; lia.
Qed.

(* ------------------------------------------------------------------ *)
(** ** Further properties of the page *)

Section PageFacts.

Variable toLowerCase : jsstring -> jsstring.

Local Abbreviation parseStructuredNotes := (Notes.parseStructuredNotes toLowerCase).

Lemma parse_returns notes :
  exists secs,
    parseStructuredNotes notes = Some secs /\ Forall hasSubsections secs.
Proof.
  destruct (linePass_total toLowerCase notes) as [st [E Hwf]].
  unfold Notes.parseStructuredNotes. rewrite E. cbn [bind].
  eexists; split; [reflexivity|].
  destruct (0 <? length (Notes.postPass toLowerCase st)).
  - now apply postPass_hasSubsections.
  - constructor; [now exists [] | constructor].
Qed.

Lemma truthy_nonempty (s : jsstring) : truthy s = true <-> s <> [].
Proof. destruct s; cbn; split; congruence. Qed.

Lemma truthyField_Some a :
  truthyField a = true -> exists n, a = Some n /\ n <> [].
Proof.
  destruct a as [n|]; cbn; [|discriminate].
  intros H. exists n. split; [reflexivity | now apply truthy_nonempty].
Qed.

(** X8: a run of [handleGenerateNotes], from its call to the end of the task
    that handles the reply, issues one request and ends with exactly one of
    the loading, result and error panels shown and the placeholder hidden:
    the loading panel with one more poll scheduled, the result panel with
    the parser's tree of the notes received, or the error panel with notes
    and tree untouched and the counter back at 0. *)
Theorem handleGenerateNotes_outcomes (p : Page) (reply : Outcome) :
  exists q,
    handleGenerateNotes toLowerCase p reply = q
    /\ requests q = S (requests p)
    /\ ((panels q = loadingOnly
         /\ timers q = timers p ++ [RETRY_DELAY]
         /\ retryCount q = 1)
        \/ (panels q = resultOnly
            /\ timers q = timers p
            /\ retryCount q = 0
            /\ currentNotes q <> []
            /\ parseStructuredNotes (currentNotes q)
               = Some (structuredNotes q))
        \/ (panels q = errorOnly
            /\ timers q = timers p
            /\ retryCount q = 0
            /\ currentNotes q = currentNotes p
            /\ structuredNotes q = structuredNotes p)).
Proof.
  eexists; split; [reflexivity|].
  unfold handleGenerateNotes, handleGenerateNotes_resume.
  destruct reply as [data|m].
  - destruct (statusIs data "success" && truthyField (notes data)) eqn:Es.
    + apply andb_true_iff in Es. destruct Es as [_ Hn].
      destruct (truthyField_Some _ Hn) as (n & En & Hne). rewrite En.
      cbn [orEmpty]. unfold processAndDisplayNotes.
      destruct (parse_returns n) as (secs & Ep & _). rewrite Ep.
      cbn [bind]. split; [reflexivity|]. right; left.
      repeat split; assumption.
    + destruct (statusIs data "processing").
      * split; [reflexivity|]. left. repeat split.
      * split; [reflexivity|]. right; right. repeat split.
  - split; [reflexivity|]. right; right. repeat split.
Qed.

(** *** The tree and the notes stay in step *)

Lemma inSync_same p q :
  currentNotes q = currentNotes p -> structuredNotes q = structuredNotes p ->
  inSync toLowerCase p -> inSync toLowerCase q.
Proof. unfold inSync. intros -> ->. exact (fun H => H). Qed.

Lemma inSync_received p n q :
  truthyField (Some n) = true ->
  processAndDisplayNotes toLowerCase (setNotes p n (structuredNotes p)) n
  = Some q ->
  inSync toLowerCase (hideLoadingState q).
Proof.
  intros Hn H. unfold processAndDisplayNotes in H.
  destruct (parseStructuredNotes n) as [secs|] eqn:Ep; [|discriminate].
  cbn [bind] in H. inversion H; subst. right. cbn.
  split; [|assumption]. destruct (truthyField_Some _ Hn) as (n' & En & Hne).
  now inversion En; subst.
Qed.

Lemma processAndDisplayNotes_returns p n :
  exists q, processAndDisplayNotes toLowerCase p n = Some q.
Proof.
  unfold processAndDisplayNotes.
  destruct (parse_returns n) as (secs & Ep & _). rewrite Ep.
  eexists; reflexivity.
Qed.

Lemma inSync_generate_resume p reply :
  inSync toLowerCase p ->
  inSync toLowerCase (handleGenerateNotes_resume toLowerCase p reply).
Proof.
  intros H. unfold handleGenerateNotes_resume. destruct reply as [data|m].
  - destruct (statusIs data "success" && truthyField (notes data)) eqn:Es.
    + apply andb_true_iff in Es. destruct Es as [_ Hn].
      destruct (truthyField_Some _ Hn) as (n & En & Hne). rewrite En in *.
      cbn [orEmpty].
      destruct (processAndDisplayNotes_returns
                  (setNotes p n (structuredNotes p)) n) as [q Eq].
      rewrite Eq. exact (inSync_received p n q Hn Eq).
    + destruct (statusIs data "processing").
      * cbv zeta. destruct (_ <? MAX_RETRIES);
          now apply (inSync_same p).
      * now apply (inSync_same p).
  - now apply (inSync_same p).
Qed.

Lemma inSync_check_resume p reply :
  inSync toLowerCase p ->
  inSync toLowerCase (fst (checkForExistingNotes_resume toLowerCase p reply)).
Proof.
  intros H. unfold checkForExistingNotes_resume. destruct reply as [data|m].
  - destruct (statusIs data "success" && truthyField (notes data)) eqn:Es.
    + apply andb_true_iff in Es. destruct Es as [_ Hn].
      destruct (truthyField_Some _ Hn) as (n & En & Hne). rewrite En in *.
      cbn [orEmpty].
      destruct (processAndDisplayNotes_returns
                  (setNotes p n (structuredNotes p)) n) as [q Eq].
      rewrite Eq. exact (inSync_received p n q Hn Eq).
    + destruct (statusIs data "processing"); now apply (inSync_same p).
  - now apply (inSync_same p).
Qed.

Lemma inSync_clear p : inSync toLowerCase (clearPreviousNotes p).
Proof. now left. Qed.

(** With notes on the page the export is the layout of the tree. *)
Lemma inSync_export p :
  inSync toLowerCase p -> truthy (currentNotes p) = true ->
  formatNotesForDownload (structuredNotes p)
  = Some (exportLayout (structuredNotes p))
  /\ exported toLowerCase (exportLayout (structuredNotes p)).
Proof.
  intros [[Hn _] | [Hn Ep]] Ht.
  - rewrite Hn in Ht. discriminate.
  - destruct (parse_returns (currentNotes p)) as (secs & Ep' & Hsub).
    rewrite Ep in Ep'. inversion Ep'; subst secs. split.
    + now apply format_is_layout.
    + now exists (currentNotes p), (structuredNotes p).
Qed.

Lemma sessionStep_invariant s e :
  sessionInvariant toLowerCase s ->
  exists s',
    sessionStep toLowerCase s e = Some s'
    /\ sessionInvariant toLowerCase s'.
Proof.
  intros (Hp & Hsaved & Hcopied).
  assert (Hsame : forall q,
            currentNotes q = currentNotes (page s) ->
            structuredNotes q = structuredNotes (page s) ->
            inSync toLowerCase q).
  { intros q E1 E2. now apply (inSync_same (page s)). }
  destruct e as [reply| | |reply| |confirmed| | | |ok| | |];
    cbn [sessionStep].
  - destruct (checkInFlight s); [now eexists; split; [reflexivity|]|].
    pose proof (inSync_check_resume (page s) reply Hp) as Hq.
    destruct (checkForExistingNotes_resume toLowerCase (page s) reply)
      as [q timer].
    eexists; split; [reflexivity|]. now repeat split.
  - destruct (checkTimers s); eexists; (split; [reflexivity|]);
      now repeat split.
  - eexists; split; [reflexivity|].
    split; [now apply Hsame | now split].
  - destruct (generateInFlight s); eexists; (split; [reflexivity|]).
    + now repeat split.
    + split; [now apply inSync_generate_resume | now split].
  - destruct (timers (page s)); eexists; (split; [reflexivity|]).
    + now repeat split.
    + split; [now apply Hsame | now split].
  - unfold handleRefresh.
    destruct (negb (truthy (currentNotes (page s)))).
    + eexists; split; [reflexivity|].
      split; [now apply Hsame | now split].
    + destruct confirmed; eexists; (split; [reflexivity|]).
      * split; [now left | now split].
      * now repeat split.
  - eexists; split; [reflexivity|].
    split; [now apply Hsame | now split].
  - unfold handleDownload.
    destruct (truthy (currentNotes (page s))) eqn:Ht; cbn [negb].
    + destruct (inSync_export (page s) Hp Ht) as [Ef Hex]. rewrite Ef.
      cbn [bind]. eexists; split; [reflexivity|].
      split; [exact Hp|]. split; [|exact Hcopied].
      now apply Forall_snoc.
    + cbn [bind]. eexists; split; [reflexivity|].
      split; [now apply Hsame|]. split; [|exact Hcopied].
      cbn. now rewrite app_nil_r.
  - unfold handleCopy.
    destruct (truthy (currentNotes (page s))) eqn:Ht; cbn [negb].
    + destruct (inSync_export (page s) Hp Ht) as [Ef Hex]. rewrite Ef.
      cbn [bind]. eexists; split; [reflexivity|].
      split; [exact Hp|]. split; [exact Hsaved|].
      now apply Forall_snoc.
    + cbn [bind]. eexists; split; [reflexivity|].
      split; [now apply Hsame|]. split; [exact Hsaved|].
      cbn. now rewrite app_nil_r.
  - destruct (copyInFlight s); eexists; (split; [reflexivity|]).
    + now repeat split.
    + split; [|now split]. destruct ok; now apply Hsame.
  - eexists; split; [reflexivity|]. split; [|now split].
    unfold handlePrint. cbn [page withPage].
    destruct (negb (truthy (currentNotes (page s)))); now apply Hsame.
  - eexists; split; [reflexivity|]. split; [|now split].
    unfold handleShareNotes. cbn [page withPage].
    destruct (negb (truthy (currentNotes (page s)))); now apply Hsame.
  - now eexists; split; [reflexivity|].
Qed.


(** X15: [checkForExistingNotes] fails in silence: whatever the reply,
    it leaves the error text as it was and never turns the error panel on,
    and it sets a timer for itself exactly when the reply is not a success
    with notes and its status is "processing". *)
Theorem checkForExistingNotes_is_silent (p : Page) (reply : Outcome) :
  errorMessage (fst (checkForExistingNotes_resume toLowerCase p reply))
  = errorMessage p
  /\ (errorState (panels (fst (checkForExistingNotes_resume toLowerCase
                                 p reply))) = block ->
      errorState (panels p) = block)
  /\ (snd (checkForExistingNotes_resume toLowerCase p reply)
      = Some RETRY_DELAY
      <-> exists data,
            reply = Resolved data
            /\ statusIs data "success" && truthyField (notes data) = false
            /\ statusIs data "processing" = true)
  /\ (snd (checkForExistingNotes_resume toLowerCase p reply) = None
      \/ snd (checkForExistingNotes_resume toLowerCase p reply)
         = Some RETRY_DELAY).
Proof.
  unfold checkForExistingNotes_resume. destruct reply as [data|m].
  - destruct (statusIs data "success" && truthyField (notes data)) eqn:Es.
    + destruct (processAndDisplayNotes_returns
                  (setNotes p (orEmpty (notes data)) (structuredNotes p))
                  (orEmpty (notes data))) as [q Eq].
      rewrite Eq. unfold processAndDisplayNotes in Eq.
      destruct (parseStructuredNotes (orEmpty (notes data))); [|discriminate].
      cbn [bind] in Eq. inversion Eq; subst q. cbn.
      repeat split; try tauto; try discriminate.
      intros (d & Hd & Hs & _). inversion Hd; subst d. congruence.
    + destruct (statusIs data "processing") eqn:Ep; cbn.
      * repeat split; try discriminate; try tauto. now exists data.
      * repeat split; try discriminate; try tauto.
        intros (d & Hd & _ & Hp). inversion Hd; subst d. congruence.
  - cbn. repeat split; try discriminate; try tauto.
    intros (d & Hd & _). discriminate Hd.
Qed.

End PageFacts.

(* ------------------------------------------------------------------ *)
(** ** Further properties of the chat widget *)

Lemma asked_app es1 es2 : asked (es1 ++ es2) = asked es1 ++ asked es2.
Proof.
  induction es1 as [|e es1 IH]; cbn [app asked]; [reflexivity|].
  destruct e; cbn [app]; now rewrite IH.
Qed.

Lemma userTexts_app ms1 ms2 :
  userTexts (ms1 ++ ms2) = userTexts ms1 ++ userTexts ms2.
Proof.
  induction ms1 as [|m ms1 IH]; cbn [app userTexts]; [reflexivity|].
  destruct (Qna.type m); cbn [app]; now rewrite IH.
Qed.

Lemma settled_initial : settled Qna.initial.
Proof.
  split; [exact guarded_initial|]. cbn.
  repeat split; try congruence; try constructor.
Qed.

Lemma settled_sendMessage_start (c : Qna.Chat) :
  settled c -> Qna.inputDisabled c = false ->
  settled (Qna.sendMessage_start c).
Proof.
  intros (Hg & Hty & Hin & Hu & Hq & Hn) He.
  pose proof (guarded_enabled_idle c Hg He) as Hidle.
  split; [now apply guarded_sendMessage_start|].
  unfold Qna.sendMessage_start.
  destruct (truthy (trim (Qna.inputValue c))) eqn:Ht;
    [|repeat split; try assumption; apply Hty].
  cbn. rewrite Hidle in *. cbn [app length] in *.
  rewrite userTexts_app, !asked_app, Hu, map_app. cbn.
  rewrite !app_nil_r.
  repeat split; try congruence.
  - apply Forall_app. split; [assumption|]. constructor; [|constructor].
    split; [now apply truthy_nonempty | apply trim_idempotent].
  - rewrite length_app. cbn [length]. lia.
Qed.

Lemma settled_sendMessage_resume (c : Qna.Chat) q (reply : Qna.Reply) :
  settled c -> Qna.pending c = [q] ->
  settled (Qna.sendMessage_resume (Qna.setPending c []) reply).
Proof.
  intros (Hg & Hty & Hin & Hu & Hq & Hn) Hp.
  rewrite Hp in Hn. cbn [length] in Hn.
  assert (Hgs : guarded (Qna.sendMessage_resume (Qna.setPending c []) reply)).
  { pose proof (guarded_step c (Qna.ReplyArrives reply) Hg) as H.
    cbn [Qna.step] in H. now rewrite Hp in H. }
  split; [exact Hgs|].
  destruct reply as [[response|]|]; unfold Qna.sendMessage_resume.
  - unfold Qna.addAIReply. destruct (Qna.isSuccess response); cbn;
      rewrite userTexts_app, !asked_app; cbn; rewrite !app_nil_r;
      repeat split; try congruence; try assumption; lia.
  - cbn. rewrite userTexts_app, !asked_app. cbn. rewrite !app_nil_r.
    repeat split; try congruence; try assumption; lia.
  - cbn. rewrite userTexts_app, !asked_app. cbn. rewrite !app_nil_r.
    repeat split; try congruence; try assumption; lia.
Qed.

Lemma settled_step (c : Qna.Chat) (e : Qna.Event) :
  settled c -> settled (Qna.step c e).
Proof.
  intros Hs. pose proof Hs as (Hg & Hty & Hin & Hu & Hq & Hn).
  pose proof Hg as [Hsame Hp].
  destruct e as [| |text|reply]; cbn [Qna.step].
  - destruct (Qna.sendDisabled c) eqn:Hd; [assumption|].
    apply settled_sendMessage_start; congruence.
  - destruct (Qna.inputDisabled c) eqn:Hd; [assumption|].
    now apply settled_sendMessage_start.
  - destruct (Qna.inputDisabled c) eqn:Hd; [assumption|].
    pose proof (guarded_enabled_idle c Hg Hd) as Hidle.
    split.
    + pose proof (guarded_step c (Qna.Edit text) Hg) as H.
      cbn [Qna.step] in H. now rewrite Hd in H.
    + cbn. repeat split; try assumption; try apply Hty; congruence.
  - destruct (Qna.pending c) as [|q rest] eqn:Eq; [assumption|].
    destruct Hp as [Hp | [[q' Hq'] _]]; [discriminate|].
    inversion Hq'; subst.
    apply (settled_sendMessage_resume c q'); [exact Hs | exact Eq].
Qed.

Lemma settled_run (events : list Qna.Event) : forall c,
  settled c -> settled (Qna.run events c).
Proof.
  unfold Qna.run. induction events as [|e events IH]; intros c Hs; cbn.
  - assumption.
  - apply IH. now apply settled_step.
Qed.

(** X10: in every state the widget reaches from its start, the typing
    indicator is shown exactly when a question waits for its reply, and the
    input box is empty as long as one does. *)
Theorem typing_indicator_while_pending (events : list Qna.Event) :
  (Qna.typingIndicator (Qna.run events Qna.initial) = true
   <-> Qna.pending (Qna.run events Qna.initial) <> [])
  /\ (Qna.pending (Qna.run events Qna.initial) <> [] ->
      Qna.inputValue (Qna.run events Qna.initial) = []).
Proof.
  destruct (settled_run events Qna.initial settled_initial)
    as (_ & Hty & Hin & _).
  now split.
Qed.

(** X11: the questions sent to [/ask_question] are, in order, the texts of
    the user's messages in the transcript, and each of them is the trimmed
    input: not empty, and without white space at either end. *)
Theorem questions_are_trimmed_messages (events : list Qna.Event) :
  userTexts (Qna.messages (Qna.run events Qna.initial))
  = map Some (asked (Qna.trace (Qna.run events Qna.initial)))
  /\ Forall (fun q => q <> [] /\ trim q = q)
            (asked (Qna.trace (Qna.run events Qna.initial))).
Proof.
  destruct (settled_run events Qna.initial settled_initial)
    as (_ & _ & _ & Hu & Hq & _).
  now split.
Qed.

(** X12: the question counter never runs ahead of the replies: the counter
    plus the questions that still wait for a reply is at most the number of
    questions sent. *)
Theorem questionCount_counts_replies (events : list Qna.Event) :
  Qna.questionCount (Qna.run events Qna.initial)
  + length (Qna.pending (Qna.run events Qna.initial))
  <= length (asked (Qna.trace (Qna.run events Qna.initial))).
Proof.
  now destruct (settled_run events Qna.initial settled_initial)
    as (_ & _ & _ & _ & _ & Hn).
Qed.

(** *** Instances on concrete inputs *)

Lemma parse_depends_on_trimmed_lines_witness :
  Notes.parseStructuredNotes lowerBasicLatin
    (lit "  # Title " ++ nl ++ nl ++ lit "   body text here")
  = Notes.parseStructuredNotes lowerBasicLatin
      (lit "# Title" ++ nl ++ lit "body text here").
Proof.
  destruct (parse_depends_on_trimmed_lines lowerBasicLatin
              (lit "  # Title " ++ nl ++ nl ++ lit "   body text here")
              (lit "# Title" ++ nl ++ lit "body text here") eq_refl)
    as (st & Ea & _ & Hsame & _).
  vm_compute in Ea. inversion Ea; subst st. clear Ea.
  destruct Hsame as [Ha Hb]; [vm_compute; discriminate|].
  now rewrite Ha, Hb.
Defined.

Lemma parse_stores_no_empty_string_witness :
  exists secs,
    Notes.parseStructuredNotes lowerBasicLatin sample = Some secs
    /\ Forall cleanSection secs.
Proof.
  apply parse_stores_no_empty_string. discriminate.
Defined.

Lemma preamble_is_ignored_witness :
  Notes.parseStructuredNotes lowerBasicLatin
    (lit "- orphan" ++ nl ++ lit "Some words first" ++ nl ++ lit "# Title"
     ++ nl ++ lit "- a point")
  = Notes.parseStructuredNotes lowerBasicLatin
      (lit "# Title" ++ nl ++ lit "- a point").
Proof.
  destruct (preamble_is_ignored lowerBasicLatin
              (lit "- orphan" ++ nl ++ lit "Some words first" ++ nl
               ++ lit "# Title" ++ nl ++ lit "- a point")
              (lit "# Title" ++ nl ++ lit "- a point")
              [lit "- orphan"; lit "Some words first"] eq_refl)
    as (st & _ & Eb & Hsame).
  - repeat constructor.
  - vm_compute in Eb. inversion Eb; subst st. clear Eb.
    apply Hsame. vm_compute. discriminate.
Defined.
